(** * d3.windrose: layout computations of the wind-rose renderer

    A shallow embedding of [src/d3.windrose.js].  An object is the list of
    its own enumerable properties in [for-in] order, and a lookup that the
    source makes on an object literal also finds the members inherited from
    [Object.prototype]; the SVG container is the list of the elements
    appended to it, in append order; a call either completes normally or
    throws, and what was appended before a throw stays on the container.

    JavaScript numbers are idealised as exact rationals ([Q]) extended with
    [NaN] and [undefined], where the program computes in binary64.  Sums,
    products and quotients are taken in the program's order, and the
    theorems on all inputs relate what the program computes to those same
    sums and comparisons, so that they do not rest on the absence of
    rounding; equalities between differently associated sums (equal slice
    widths, a total of 360 degrees, an arm that stays within the domain)
    hold for the rationals only and are not stated.  The reference-circle
    loops count down on integers, which is the program's loop for a domain
    up to 2^53 ([loopEnds]). *)

From Stdlib Require Import QArith Qround ZArith NArith List Ascii String Bool Lia Lqa.
Import ListNotations.

Open Scope Q_scope.

(* ================================================================== *)
(** ** JavaScript values used by the library                            *)
(* ================================================================== *)

(** A number, or what stands where a number is expected. *)
Inductive jsnum : Type :=
| Undefined
| NaN
| Num (q : Q).

(** [a + b] on numbers: anything that is not a number poisons the sum. *)
Definition add (a b : jsnum) : jsnum :=
  match a, b with
  | Num p, Num q => Num (p + q)
  | _, _ => NaN
  end.

Definition Qltb (p q : Q) : bool := negb (Qle_bool q p).

(** Equality of numbers up to the representation of the rational. *)
Definition jsnum_eq (a b : jsnum) : Prop :=
  match a, b with
  | Undefined, Undefined => True
  | NaN, NaN => True
  | Num p, Num q => p == q
  | _, _ => False
  end.

(** An object: own enumerable properties in [for-in] order. *)
Definition object (V : Type) : Type := list (string * V).

(** The array index a key spells, if any: a decimal numeral without a
    leading zero, below 2^32 - 1.  [for-in] visits the keys that are array
    indices first, in ascending order, and the other keys after them, in
    the order in which they were added. *)
Definition digit (c : ascii) : option N :=
  let n := N_of_ascii c in
  if (N.leb 48 n && N.leb n 57)%bool then Some (n - 48)%N else None.

Fixpoint numeral (s : string) (acc : N) : option N :=
  match s with
  | EmptyString => Some acc
  | String c rest =>
      match digit c with
      | Some d => numeral rest (10 * acc + d)%N
      | None => None
      end
  end.

Definition arrayIndex (k : string) : option N :=
  match k with
  | EmptyString => None
  | String c rest =>
      match numeral k 0 with
      | Some n =>
          if ((String.eqb k "0" || negb (Ascii.eqb c "0"))
              && N.ltb n 4294967295)%bool
          then Some n else None
      | None => None
      end
  end.

Section Objects.
Context {V : Type}.

(** The own property [k] of [o]; [None] when there is none.  It is [o[k]]
    wherever the key is no inherited name: ["calm"], or a key that was set. *)
Fixpoint get (k : string) (o : object V) : option V :=
  match o with
  | [] => None
  | (k', v) :: rest => if String.eqb k k' then Some v else get k rest
  end.

(** [o[k] = v] on a property the object has: it keeps its place. *)
Fixpoint overwrite (k : string) (v : V) (o : object V) : object V :=
  match o with
  | [] => []
  | (k', v') :: rest =>
      if String.eqb k k' then (k', v) :: rest else (k', v') :: overwrite k v rest
  end.

(** A new key that is the array index [n] goes before the first key that
    is no smaller index. *)
Fixpoint insertIndex (n : N) (k : string) (v : V) (o : object V) : object V :=
  match o with
  | [] => [(k, v)]
  | (k', v') :: rest =>
      match arrayIndex k' with
      | Some m => if N.ltb m n then (k', v') :: insertIndex n k v rest
                  else (k, v) :: o
      | None => (k, v) :: o
      end
  end.

(** [o[k] = v]: an existing property keeps its place; a new one goes among
    the array indices when it is one, and last otherwise. *)
Definition set (k : string) (v : V) (o : object V) : object V :=
  match get k o with
  | Some _ => overwrite k v o
  | None =>
      match arrayIndex k with
      | Some n => insertIndex n k v o
      | None => o ++ [(k, v)]
      end
  end.

Definition keys (o : object V) : list string := map fst o.
End Objects.

(** The names of the members every object inherits from
    [Object.prototype].  On an object literal, [o[k]] for such a [k] that
    is not an own property is that member, not [undefined]. *)
Definition objectPrototype : list string :=
  [ "constructor"; "toString"; "toLocaleString"; "valueOf"; "hasOwnProperty";
    "isPrototypeOf"; "propertyIsEnumerable"; "__proto__"; "__defineGetter__";
    "__defineSetter__"; "__lookupGetter__"; "__lookupSetter__" ]%string.

Definition inherited (k : string) : bool := existsb (String.eqb k) objectPrototype.

(** A value stored under a first-level key of the wind rose data: a scalar
    (the ["calm"] frequency, or a mean speed) or an object of speed bins. *)
Inductive entry : Type :=
| Scalar (v : jsnum)
| Bins (bins : object jsnum).

Definition dataset : Type := object entry.

(** The properties [for (var bin in data[dir])] visits, each with the value
    [data[dir][bin]]; a primitive value has none. *)
Definition forIn (e : entry) : object jsnum :=
  match e with
  | Bins b => b
  | Scalar _ => []
  end.

(** An entry read where a number is expected.  An object there never
    compares as a number, which [NaN] stands for. *)
Definition toScalar (e : entry) : jsnum :=
  match e with
  | Scalar v => v
  | Bins _ => NaN
  end.

(** [data[k]] read as a number; a missing key reads [undefined]. *)
Definition getScalar (k : string) (data : dataset) : jsnum :=
  match get k data with
  | Some e => toScalar e
  | None => Undefined
  end.

Definition isCalm (dir : string) : bool := String.eqb dir "calm".

(* ================================================================== *)
(** ** windrose: directions, angles, domain                             *)
(* ================================================================== *)

Definition degreesInCircle : Q := 360.

Definition getDirections (data : dataset) : list string :=
  filter (fun key => negb (isCalm key)) (keys data).

Record span : Type := { start : Q; end_ : Q }.

(** The body of [getAngles]'s loop: [factor] is read for [start], then
    incremented and read again for [end], so that the [end] of one slice
    and the [start] of the next are the same product.  [factor] is i - 0.5
    at index i, exactly also in binary64; the quotient and the products are
    exact here and rounded in the program. *)
Fixpoint getAngles_loop (slices : Q) (directions : list string)
         (factor : Q) (angs : object span) : object span :=
  match directions with
  | [] => angs
  | d :: rest =>
      let factor' := factor + 1 in
      getAngles_loop slices rest factor'
        (set d {| start := degreesInCircle / slices * factor;
                  end_ := degreesInCircle / slices * factor' |} angs)
  end.

Definition getAngles (directions : list string) : object span :=
  let slices := inject_Z (Z.of_nat (List.length directions)) in
  getAngles_loop slices directions (-1 # 2) [].

Definition numberOfDirectionsInData (data : dataset) : nat :=
  List.length data.

(** [gt] inside [maxLength]: [max] starts at 0 and is only overwritten by a
    value that compared greater than it, so it is always a number. *)
Definition gt (val : jsnum) (max : Q) : Q :=
  match val with
  | Num v => if Qltb max v then v else max
  | _ => max
  end.

(** [for (var bin in data[dir]) len += data[dir][bin]]. *)
Fixpoint sumBins (bins : object jsnum) (len : jsnum) : jsnum :=
  match bins with
  | [] => len
  | (_, freq) :: rest => sumBins rest (add len freq)
  end.

Fixpoint maxLength_loop (data : dataset) (max : Q) (calm len : jsnum) : Q :=
  match data with
  | [] => max
  | (dir, e) :: rest =>
      if isCalm dir then
        let calm' := toScalar e in
        maxLength_loop rest (gt (add len calm') max) calm' len
      else
        let len' := sumBins (forIn e) (Num 0) in
        maxLength_loop rest (gt (add len' calm) max) calm len'
  end.

(** [max], [calm] and [len] start at 0; [calm] changes at the ["calm"] key
    only, and [len] keeps the sum of the last direction there.  The sums
    are exact here and rounded in the program. *)
Definition maxLength (data : dataset) : Q :=
  maxLength_loop data 0 (Num 0) (Num 0).

(** [Math.ceil(maxLength(data) / 10) * 10], an integer; the quotient is exact
    here and rounded in the program, which matters when [maxLength] is
    within a rounding error of a multiple of ten or exceeds 2^53. *)
Definition domain (data : dataset) : Z :=
  (Qceiling (maxLength data / 10) * 10)%Z.

(** What a call can throw. *)
Inductive exn : Type := TypeError | ReferenceError.

Inductive completion (A : Type) : Type :=
| Normal (a : A)
| Throw (e : exn).
Arguments Normal {A} a.
Arguments Throw {A} e.

(** [lt] inside [directionWithMinimumLength]. *)
Definition lt (val : jsnum) (dir : string) (st : Q * string) : Q * string :=
  match val with
  | Num v => if Qltb v (fst st) then (v, dir) else st
  | _ => st
  end.

(** [directionWithMinimumLength] never declares [calm]: it is a global
    variable, [None] while no assignment has created it.  Reading it then
    throws; once created it outlives the call. *)
Fixpoint directionWithMinimumLength_loop (data : dataset) (st : Q * string)
         (len : jsnum) (calm : option jsnum) : completion string * option jsnum :=
  match data with
  | [] => (Normal (snd st), calm)
  | (dir, e) :: rest =>
      let calm' := if isCalm dir then Some (toScalar e) else calm in
      let len' := if isCalm dir then len else sumBins (forIn e) (Num 0) in
      match calm' with
      | None => (Throw ReferenceError, None)
      | Some c =>
          directionWithMinimumLength_loop rest (lt (add len' c) dir st) len' calm'
      end
  end.

Definition directionWithMinimumLength (globalCalm : option jsnum) (data : dataset)
  : completion string * option jsnum :=
  directionWithMinimumLength_loop data (0, ""%string) (Num 0) globalCalm.

(* ================================================================== *)
(** ** The SVG container and the calls that draw on it                  *)
(* ================================================================== *)

Record point : Type := { x : Q; y : Q }.

(** [windrose.rad(deg)] is [deg * (Math.PI / 180)]; the factor is not
    rational, so the conversion is kept as a constructor. *)
Inductive angle : Type := rad (deg : Q).

(** The generator built by [d3.svg.arc()] and its four setters. *)
Record arc : Type :=
  { innerRadius : jsnum; outerRadius : jsnum;
    startAngle : angle; endAngle : angle }.

Inductive attr : Type :=
| ANum (n : jsnum)
| AStr (s : string)
| AArc (a : arc)
| ATranslate (cx cy : Q)          (* "translate(" + cx + "," + cy + ")" *)
| ARotate (deg : jsnum) (cx cy : Q) (* "rotate(" + deg + " " + cx + " " + cy + ")" *)
| ARotateMember (name : string) (cx cy : Q).
    (* the same text with, for deg, the member every object inherits under name *)

(** Texts built by concatenation, with the numbers left unprinted. *)
Inductive label : Type :=
| PercentLabel (freq : Z)                       (* freq + "%" *)
| ChunkLabel (dir bin : string) (freq : jsnum)  (* dir + " " + bin + " m/s " + freq + "%" *)
| CalmLabel (calmPercent : jsnum)               (* "Calm: " + calmPercent + "%" *)
| BarLabel (dir key : string) (freq : jsnum)
| SpeedLabel (dir : string) (speed : jsnum).    (* dir + " average wind speed is " + speed + "m/s" *)

(** An appended element: the values given to its attributes and styles, in
    the order they were set ([ANum Undefined] where [undefined] was given),
    and the text given to it or to its [title] child. *)
Record element : Type :=
  { tag : string; attrs : object attr; styles : object attr;
    caption : option label }.

Definition surface : Type := list element.

(** A drawing call: it may append to the container and may throw. *)
Definition render (A : Type) : Type := surface -> surface * completion A.

Definition ret {A : Type} (a : A) : render A := fun svg => (svg, Normal a).

Definition throw {A : Type} (e : exn) : render A := fun svg => (svg, Throw e).

Definition bind {A B : Type} (m : render A) (k : A -> render B) : render B :=
  fun svg =>
    match m svg with
    | (svg', Normal a) => k a svg'
    | (svg', Throw e) => (svg', Throw e)
    end.

Definition append (e : element) : render unit :=
  fun svg => (svg ++ [e], Normal tt).

Declare Scope render_scope.
Delimit Scope render_scope with render.
Notation "v <- m ;; k" := (bind m (fun v => k))
  (at level 61, m at next level, right associativity) : render_scope.
Notation "m ;; k" := (bind m (fun _ => k))
  (at level 61, right associativity) : render_scope.
Open Scope render_scope.

(** 2^53: up to it every integer is a double and integer sums and
    differences are exact. *)
Definition maxExactInteger : Z := 9007199254740992.

(** A domain up to which the reference-circle loops are exact: started
    there, they visit domain, domain - 10, ... and end. *)
Definition loopEnds (domain : Z) : bool := (domain <=? maxExactInteger)%Z.

Fixpoint forEach {A : Type} (l : list A) (body : A -> render unit) : render unit :=
  match l with
  | [] => ret tt
  | a :: rest => body a ;; forEach rest body
  end.

(** The values [v] taken by [for (v = from; v >= stop; v -= 10)] when [v]
    is an integer.  The fuel bounds the number of turns; [Z.to_nat from] is
    enough whenever [stop] is positive (lemma [countdown_fuel_enough]).
    The program's [v] is a double: up to [maxExactInteger] its [v -= 10] is
    this subtraction; far beyond, it leaves [v] unchanged and the loop does
    not end, which the statements about these loops exclude by [loopEnds]. *)
Fixpoint countdown_fuel (fuel : nat) (v stop : Z) : list Z :=
  match fuel with
  | O => []
  | S fuel' =>
      if (stop <=? v)%Z then v :: countdown_fuel fuel' (v - 10) stop else []
  end.

Definition countdown (from stop : Z) : list Z :=
  countdown_fuel (Z.to_nat from) from stop.

Record binStyle : Type := { fill : string }.

Definition config : object binStyle :=
  [ ("0-10", {| fill := "#FFFF99" |});
    ("10-20", {| fill := "#FFFF33" |});
    ("20-30", {| fill := "#FFCC00" |});
    (">30", {| fill := "#FF9900" |}) ]%string.

Definition drawFrequencyCircles (domain : Z) (center : point) : render unit :=
  forEach (countdown domain 5) (fun freq =>
    append {| tag := "circle";
              attrs := [("cx", ANum (Num (x center))); ("cy", ANum (Num (y center)));
                        ("r", ANum (Num (inject_Z freq)))]%string;
              styles := [("fill", AStr "white"); ("stroke", AStr "#C8C8C8")]%string;
              caption := Some (PercentLabel freq) |} ;;
    append {| tag := "text";
              attrs := [("x", ANum (Num (x center)));
                        ("y", ANum (Num (y center + inject_Z freq)));
                        ("fill", AStr "#C0C0C0"); ("font-size", AStr "5pt");
                        ("font-family", AStr "Arial");
                        ("transform", ARotate (Num (-225 # 10)) (x center) (y center))]%string;
              styles := [];
              caption := Some (PercentLabel freq) |}).

(** [angles[dir].start] throws when [angles] has no [dir], before anything
    is appended.  [windrose.config[bin]["fill"]] is the colour of a bin that
    has a style; for a bin named like an inherited member it is the ["fill"]
    of that member, [undefined]; for any other bin [windrose.config[bin]] is
    [undefined] and reading its ["fill"] throws, after the path was appended
    and given its ["d"]. *)
Definition drawChunk (dir bin : string) (freq offset : jsnum) (center : point)
           (angles : object span) : render jsnum :=
  match get dir angles with
  | None => throw TypeError
  | Some a =>
      let arc := {| innerRadius := offset; outerRadius := add offset freq;
                    startAngle := rad (start a); endAngle := rad (end_ a) |} in
      let path fillValue :=
        {| tag := "path";
           attrs := [("d", AArc arc); ("fill", fillValue);
                     ("fill-opacity", ANum (Num (5 # 10)));
                     ("transform", ATranslate (x center) (y center))]%string;
           styles := [("stroke", AStr "black")]%string;
           caption := Some (ChunkLabel dir bin freq) |} in
      match get bin config with
      | Some st => append (path (AStr (fill st))) ;; ret (add offset freq)
      | None =>
          if inherited bin then
            append (path (ANum Undefined)) ;; ret (add offset freq)
          else
            append {| tag := "path"; attrs := [("d", AArc arc)]%string;
                      styles := []; caption := None |} ;;
            throw TypeError
      end
  end.

Definition defaultCenter : point := {| x := 100; y := 80 |}.

(** [d3.select("body").append("svg")]: a new container, nothing drawn yet. *)
Definition newSvg : surface := [].

Definition b4 (a b c d : Q) : entry :=
  Bins [("0-10", Num a); ("10-20", Num b); ("20-30", Num c); (">30", Num d)]%string.

Definition defaultData : dataset :=
  [ ("calm", Scalar (Num 8));
    ("N", b4 3 12 0 0); ("NNE", b4 4 9 2 0); ("NE", b4 0 20 0 0);
    ("ENE", b4 0 2 0 0); ("E", b4 0 5 0 0); ("ESE", b4 0 5 0 0);
    ("SE", b4 0 0 0 0); ("SSE", b4 0 0 0 0); ("S", b4 20 30 10 10);
    ("SSW", b4 23 0 0 0); ("SW", b4 23 0 0 0); ("WSW", b4 0 11 0 0);
    ("W", b4 0 11 0 0); ("WNW", b4 0 11 0 0); ("NW", b4 0 0 0 0);
    ("NNW", b4 0 0 0 0) ]%string.

(** The inner loop of [drawRose]: one chunk per bin, the offset threaded. *)
Fixpoint drawRose_bins (dir : string) (bins : object jsnum) (offset : jsnum)
         (center : point) (angles : object span) : render jsnum :=
  match bins with
  | [] => ret offset
  | (bin, freq) :: rest =>
      offset' <- drawChunk dir bin freq offset center angles ;;
      drawRose_bins dir rest offset' center angles
  end.

(** The outer loop of [drawRose] over the keys [todo] of [data]. *)
Fixpoint drawRose_dirs (data todo : dataset) (center : point)
         (angles : object span) : render unit :=
  match todo with
  | [] => ret tt
  | (dir, e) :: rest =>
      (if negb (isCalm dir) then
         _ <- drawRose_bins dir (forIn e) (getScalar "calm" data) center angles ;;
         ret tt
       else ret tt) ;;
      drawRose_dirs data rest center angles
  end.

Definition drawRose_body (data : dataset) (center : point) : render unit :=
  drawFrequencyCircles (domain data) center ;;
  let directions := getDirections data in
  let angles := getAngles directions in
  drawRose_dirs data data center angles.

Definition orDefault {A : Type} (arg : option A) (dflt : A) : A :=
  match arg with
  | Some a => a
  | None => dflt
  end.

(** [drawRose(data, center, svgContainer)]; [None] is an omitted argument. *)
Definition drawRose (data : option dataset) (center : option point)
           (svgContainer : option surface) : surface * completion unit :=
  drawRose_body (orDefault data defaultData) (orDefault center defaultCenter)
                (orDefault svgContainer newSvg).

(* ================================================================== *)
(** ** windrose.bomStyle: telescope arms                                *)
(* ================================================================== *)

Module bomStyle.

Record binStyle : Type := { fill : string; width : Q }.

Definition config : object binStyle :=
  [ ("0-10", {| fill := "#FFFF99"; width := 4 |});
    ("10-20", {| fill := "#FFFF33"; width := 8 |});
    ("20-30", {| fill := "#FFCC00"; width := 12 |});
    (">30", {| fill := "#FF9900"; width := 16 |}) ]%string.

Definition drawRadiiCircles (domain : Z) (center : point) : render unit :=
  forEach (countdown domain 10) (fun radius =>
    append {| tag := "circle";
              attrs := [("cx", ANum (Num (x center))); ("cy", ANum (Num (y center)));
                        ("r", ANum (Num (inject_Z radius)))]%string;
              styles := [("fill", AStr "white"); ("stroke", AStr "#C8C8C8")]%string;
              caption := None |}).

Definition drawCalmCircle (calmPercent : jsnum) (center : point) : render unit :=
  append {| tag := "circle";
            attrs := [("cx", ANum (Num (x center))); ("cy", ANum (Num (y center)));
                      ("r", ANum calmPercent)]%string;
            styles := [("fill", AStr "white"); ("stroke", AStr "black")]%string;
            caption := Some (CalmLabel calmPercent) |}.

Definition defaultData : dataset :=
  [ ("calm", Scalar (Num 8));
    ("N", b4 10 10 10 10); ("NE", b4 10 10 10 10); ("E", b4 10 10 10 10);
    ("SE", b4 10 10 10 10); ("S", b4 20 30 10 10); ("SW", b4 10 10 10 10);
    ("W", b4 10 10 10 10); ("NW", b4 10 10 10 10) ]%string.

Definition rotations : object Q :=
  [ ("N", 180); ("NE", -90 - 45); ("E", -90); ("SE", -45); ("S", 0);
    ("SW", 45); ("W", 90); ("NW", 90 + 45) ]%string.

(** ["rotate(" + rotations[dir] + " " + center.x + " " + center.y + ")"]:
    [rotations[dir]] is the angle of one of the eight directions, the
    inherited member for a direction named like one, else [undefined]. *)
Definition rotation (dir : string) (center : point) : attr :=
  match get dir rotations with
  | Some deg => ARotate (Num deg) (x center) (y center)
  | None =>
      if inherited dir then ARotateMember dir (x center) (y center)
      else ARotate Undefined (x center) (y center)
  end.

(** The inner loop: the rectangle is appended first; computing its ["x"]
    reads [config[key]["width"]].  For a key named like an inherited member
    that width is [undefined] (x is NaN, fill [undefined]); for any other
    key without style [config[key]] is [undefined] and the read throws. *)
Fixpoint drawRose_keys (dir : string) (bins : object jsnum) (currentOffset : jsnum)
         (center : point) : render jsnum :=
  match bins with
  | [] => ret currentOffset
  | (key, freq) :: rest =>
      let rect barX barWidth barFill :=
        {| tag := "rect";
           attrs := [("x", ANum barX); ("y", ANum currentOffset);
                     ("width", ANum barWidth); ("height", ANum freq);
                     ("transform", rotation dir center)]%string;
           styles := [("fill", barFill); ("stroke", AStr "black")]%string;
           caption := Some (BarLabel dir key freq) |} in
      match get key config with
      | Some st =>
          append (rect (Num (x center - width st / 2)) (Num (width st))
                       (AStr (fill st))) ;;
          drawRose_keys dir rest (add currentOffset freq) center
      | None =>
          if inherited key then
            append (rect NaN Undefined (ANum Undefined)) ;;
            drawRose_keys dir rest (add currentOffset freq) center
          else
            append {| tag := "rect"; attrs := []; styles := []; caption := None |} ;;
            throw TypeError
      end
  end.

Fixpoint drawRose_dirs (todo : dataset) (offset : jsnum) (center : point)
  : render unit :=
  match todo with
  | [] => ret tt
  | (dir, e) :: rest =>
      let currentOffset := offset in
      (if negb (isCalm dir) then
         _ <- drawRose_keys dir (forIn e) currentOffset center ;;
         ret tt
       else ret tt) ;;
      drawRose_dirs rest offset center
  end.

Definition drawRose_body (data : dataset) (center : point) : render unit :=
  drawRadiiCircles (domain data) center ;;
  drawCalmCircle (getScalar "calm" data) center ;;
  let offset := add (Num (y center)) (getScalar "calm" data) in
  drawRose_dirs data offset center.

Definition drawRose (data : option dataset) (center : option point)
           (svgContainer : option surface) : surface * completion unit :=
  drawRose_body (orDefault data defaultData) (orDefault center defaultCenter)
                (orDefault svgContainer newSvg).

End bomStyle.

(* ================================================================== *)
(** ** windrose.meanDirectional                                         *)
(* ================================================================== *)

Module meanDirectional.

Definition drawSpeedCircles (center : point) : render unit :=
  forEach (countdown 80 5) (fun speed =>
    append {| tag := "circle";
              attrs := [("cx", ANum (Num (x center))); ("cy", ANum (Num (y center)));
                        ("r", ANum (Num (inject_Z speed)))]%string;
              styles := [("fill", AStr "white"); ("stroke", AStr "#C8C8C8")]%string;
              caption := None |}).

Definition drawSpeedSlice (center : point) (dir : string) (speed : jsnum)
           (angles : object span) : render unit :=
  match get dir angles with
  | None => throw TypeError
  | Some a =>
      append {| tag := "path";
                attrs := [("d", AArc {| innerRadius := Num 0; outerRadius := speed;
                                        startAngle := rad (start a);
                                        endAngle := rad (end_ a) |});
                          ("fill", AStr "green");
                          ("fill-opacity", ANum (Num (5 # 10)));
                          ("transform", ATranslate (x center) (y center))]%string;
                styles := [("stroke", AStr "black")]%string;
                caption := Some (SpeedLabel dir speed) |}
  end.

Definition defaultData : dataset :=
  [ ("N", Scalar (Num 10)); ("NE", Scalar (Num 20)); ("E", Scalar (Num 30));
    ("SE", Scalar (Num 40)); ("S", Scalar (Num 50)); ("SW", Scalar (Num 60));
    ("W", Scalar (Num 70)); ("NW", Scalar (Num 80)) ]%string.

Definition drawRose_body (data : dataset) (center : point) : render unit :=
  let directions := getDirections data in
  let angles := getAngles directions in
  drawSpeedCircles center ;;
  forEach data (fun '(dir, e) => drawSpeedSlice center dir (toScalar e) angles).

Definition drawRose (data : option dataset) (center : option point)
           (svgContainer : option surface) : surface * completion unit :=
  drawRose_body (orDefault data defaultData) (orDefault center defaultCenter)
                (orDefault svgContainer newSvg).

End meanDirectional.

(* ================================================================== *)
(** ** Reading a container back                                         *)
(* ================================================================== *)

Definition isTag (t : string) (e : element) : bool := String.eqb (tag e) t.

(** The radii given to the circles of a container, in append order. *)
Definition circleRadius (e : element) : option jsnum :=
  if isTag "circle" e then
    match get "r"%string (attrs e) with
    | Some (ANum r) => Some r
    | _ => None
    end
  else None.

(** The arc generator bound to the ["d"] of a path. *)
Definition arcOf (e : element) : option arc :=
  if isTag "path" e then
    match get "d"%string (attrs e) with
    | Some (AArc a) => Some a
    | _ => None
    end
  else None.

Fixpoint collect {A B : Type} (f : A -> option B) (l : list A) : list B :=
  match l with
  | [] => []
  | a :: rest =>
      match f a with
      | Some b => b :: collect f rest
      | None => collect f rest
      end
  end.

Definition circleRadii (svg : surface) : list jsnum := collect circleRadius svg.

(** A chunk of the frequency rose: direction, bin, inner and outer radius. *)
Definition chunkOf (e : element) : option (string * string * jsnum * jsnum) :=
  match arcOf e, caption e with
  | Some a, Some (ChunkLabel dir bin _) =>
      Some (dir, bin, innerRadius a, outerRadius a)
  | _, _ => None
  end.

Definition chunks (svg : surface) : list (string * string * jsnum * jsnum) :=
  collect chunkOf svg.

(** A slice of the mean-directional rose: direction and arc. *)
Definition sliceOf (e : element) : option (string * arc) :=
  match arcOf e, caption e with
  | Some a, Some (SpeedLabel dir _) => Some (dir, a)
  | _, _ => None
  end.

Definition slices (svg : surface) : list (string * arc) := collect sliceOf svg.

(** A bar of the telescope rose. *)
Record bar : Type :=
  { barDir : string; barKey : string;
    barX : jsnum; barY : jsnum; barWidth : jsnum; barHeight : jsnum }.

Definition numAttr (k : string) (e : element) : option jsnum :=
  match get k (attrs e) with
  | Some (ANum n) => Some n
  | _ => None
  end.

Definition barOf (e : element) : option bar :=
  if isTag "rect" e then
    match caption e, numAttr "x" e, numAttr "y" e, numAttr "width" e, numAttr "height" e with
    | Some (BarLabel dir key _), Some bx, Some by_, Some bw, Some bh =>
        Some {| barDir := dir; barKey := key;
                barX := bx; barY := by_; barWidth := bw; barHeight := bh |}
    | _, _, _, _, _ => None
    end
  else None.

Definition bars (svg : surface) : list bar := collect barOf svg.

(* ================================================================== *)
(** ** The layouts as the specification words them                      *)
(* ================================================================== *)

(** Every drawn bin has a fill colour in [windrose.config]. *)
Definition hasStyle {V : Type} (cfg : object V) (bin : string) : bool :=
  match get bin cfg with
  | Some _ => true
  | None => false
  end.

Definition allStyled {V : Type} (cfg : object V) (data : dataset) : bool :=
  forallb (fun de => isCalm (fst de)
                     || forallb (fun bf => hasStyle cfg (fst bf)) (forIn (snd de)))
          data.

(** Chunks stacked outwards: each bin spans [offset, offset + binValue],
    and the next one starts where it ends. *)
Fixpoint stackedChunks (dir : string) (offset : jsnum) (bins : object jsnum)
  : list (string * string * jsnum * jsnum) :=
  match bins with
  | [] => []
  | (bin, binValue) :: rest =>
      (dir, bin, offset, add offset binValue)
        :: stackedChunks dir (add offset binValue) rest
  end.

Definition frequencyArms (data : dataset) : list (string * string * jsnum * jsnum) :=
  flat_map (fun de => if isCalm (fst de) then []
                      else stackedChunks (fst de) (getScalar "calm" data) (forIn (snd de)))
           data.

(** Bars stacked from [offset]: x = center.x - binWidth/2, y = the running
    offset, the bin's configured width, height = its frequency. *)
Fixpoint stackedBars (dir : string) (offset : jsnum) (center : point)
         (bins : object jsnum) : list bar :=
  match bins with
  | [] => []
  | (key, freq) :: rest =>
      match get key bomStyle.config with
      | Some st =>
          {| barDir := dir; barKey := key;
             barX := Num (x center - bomStyle.width st / 2); barY := offset;
             barWidth := Num (bomStyle.width st); barHeight := freq |}
            :: stackedBars dir (add offset freq) center rest
      | None => []
      end
  end.

Definition telescopeArms (data : dataset) (center : point) : list bar :=
  flat_map (fun de => if isCalm (fst de) then []
                      else stackedBars (fst de)
                             (add (Num (y center)) (getScalar "calm" data))
                             center (forIn (snd de)))
           data.

(** The calm scalar, taken as 0 if absent. *)
Definition calmOrZero (data : dataset) : jsnum :=
  match get "calm"%string data with
  | Some e => toScalar e
  | None => Num 0
  end.

(** A direction's total: the sum of its bin frequencies plus the calm. *)
Definition armTotal (data : dataset) (e : entry) : jsnum :=
  add (sumBins (forIn e) (Num 0)) (calmOrZero data).

Definition armTotals (data : dataset) : list jsnum :=
  map (fun de => armTotal data (snd de))
      (filter (fun de => negb (isCalm (fst de))) data).

(** The domain as the specification defines it: the largest arm total,
    rounded up to a multiple of ten; 0 when nothing exceeds 0. *)
Definition specDomain (data : dataset) : Z :=
  (Qceiling (fold_left (fun m t => gt t m) (armTotals data) 0%Q / 10) * 10)%Z.

(** The value of [factor] when the loop of [getAngles] reaches index [i]:
    [i] increments after its initial value. *)
Fixpoint factorAt (factor : Q) (i : nat) : Q :=
  match i with
  | O => factor
  | S i' => factorAt factor i' + 1
  end.

(** The span [getAngles] stores at index [i] of its list. *)
Definition sliceAt (slices factor : Q) (i : nat) : span :=
  {| start := degreesInCircle / slices * factorAt factor i;
     end_ := degreesInCircle / slices * (factorAt factor i + 1) |}.

(** All arm totals of the directions are numbers and none is negative. *)
Definition armTotalsNonNegative (data : dataset) : bool :=
  forallb (fun t => match t with Num q => Qle_bool 0 q | _ => false end)
          (armTotals data).

(* ================================================================== *)
(** ** Datasets and predicates used in the statements                   *)
(* ================================================================== *)

(** A count read as a number. *)
Definition Qnat (n : nat) : Q := inject_Z (Z.of_nat n).

(** The eight-point compass, clockwise from north. *)
Definition compass8 : list string :=
  ["N"; "NE"; "E"; "SE"; "S"; "SW"; "W"; "NW"]%string.


(** Whatever a call does, the container it leaves extends the one it got. *)
Definition extends {A : Type} (m : render A) : Prop :=
  forall svg, exists new, fst (m svg) = svg ++ new.

(** Every bin of one direction has a style. *)
Definition binsStyled {V : Type} (cfg : object V) (bins : object jsnum) : bool :=
  forallb (fun bf => hasStyle cfg (fst bf)) bins.

(** The chunks of one key of the data: none for ["calm"]. *)
Definition armChunks (data : dataset) (de : string * entry)
  : list (string * string * jsnum * jsnum) :=
  if isCalm (fst de) then []
  else stackedChunks (fst de) (getScalar "calm" data) (forIn (snd de)).

(** The first direction of [drawRose]'s default data, with its calm. *)
Definition northOnly : dataset :=
  [ ("calm", Scalar (Num 8)); ("N", b4 3 12 0 0) ]%string.

(** A negative frequency, a frequency that is not a number, and a bin
    label that [windrose.config] does not know. *)
Definition negativeBin : dataset :=
  [ ("calm", Scalar (Num 8)); ("N", Bins [("0-10", Num (-3))]) ]%string.

Definition notANumber : dataset :=
  [ ("calm", Scalar (Num 8)); ("N", Bins [("0-10", NaN)]) ]%string.

Definition unknownBin : dataset :=
  [ ("calm", Scalar (Num 8));
    ("N", Bins [("0-10", Num 3); ("30-40", Num 5); ("10-20", Num 2)]) ]%string.

(** One direction and no ["calm"] key. *)
Definition noCalm : dataset := [ ("N", Bins [("0-10", Num 3)]) ]%string.

(** The same two directions with ["calm"] as last and as first key. *)
Definition calmLast : dataset :=
  [ ("N", Bins [("0-10", Num 20)]); ("S", Bins [("0-10", Num 5)]);
    ("calm", Scalar (Num 8)) ]%string.

Definition calmFirst : dataset :=
  [ ("calm", Scalar (Num 8));
    ("N", Bins [("0-10", Num 20)]); ("S", Bins [("0-10", Num 5)]) ]%string.

(** A dataset without any direction. *)
Definition calmOnly : dataset := [ ("calm", Scalar (Num 8)) ]%string.

(** The radii of the reference circles of the mean-directional rose. *)
Definition speedRadii : list jsnum :=
  [Num 80; Num 70; Num 60; Num 50; Num 40; Num 30; Num 20; Num 10].

(** The slice drawn for one key of the data. *)
Definition sliceFor (angles : object span) (de : string * entry) : list (string * arc) :=
  match get (fst de) angles with
  | Some a => [(fst de, {| innerRadius := Num 0; outerRadius := toScalar (snd de);
                           startAngle := rad (start a); endAngle := rad (end_ a) |})]
  | None => []
  end.

(** The loop of [meanDirectional.drawRose] over the keys of the data. *)
Definition drawSlices (center : point) (angles : object span) (todo : dataset)
  : render unit :=
  forEach todo (fun '(dir, e) =>
    meanDirectional.drawSpeedSlice center dir (toScalar e) angles).

(** No first-level key is ["calm"]. *)
Definition noCalmKey (data : dataset) : bool :=
  forallb (fun k => negb (isCalm k)) (keys data).

(** One direction of mean speed 10. *)
Definition northTen : dataset := [ ("N", Scalar (Num 10)) ]%string.

(** The first direction of [bomStyle.drawRose]'s default data, with its calm. *)
Definition northTens : dataset :=
  [ ("calm", Scalar (Num 8)); ("N", b4 10 10 10 10) ]%string.

(** Where a bar starts along its arm, and how far it reaches. *)
Definition barSpan (b : bar) : jsnum * jsnum := (barY b, barHeight b).

(** A negative calm with one arm whose total is still positive. *)
Definition negativeCalm : dataset :=
  [ ("calm", Scalar (Num (-5))); ("N", Bins [("0-10", Num 10)]) ]%string.

(** The total of one arm is a number, and not negative. *)
Definition armNonNegative (calm : jsnum) (de : string * entry) : bool :=
  match add (sumBins (forIn (snd de)) (Num 0)) calm with
  | Num q => Qle_bool 0 q
  | _ => false
  end.

(** The sum of the bins of a direction is a number, and not negative. *)
Definition binSumNonNegative (de : string * entry) : bool :=
  match sumBins (forIn (snd de)) (Num 0) with
  | Num q => Qle_bool 0 q
  | _ => false
  end.

(* ================================================================== *)
(** ** Further predicates and observations                             *)
(* ================================================================== *)

(** The number of first-level keys that are ["calm"]. *)
Definition calmKeys (data : dataset) : nat :=
  List.length (filter isCalm (keys data)).

(** The ["calm"] key, if there is one, is the first key. *)
Definition calmFirstOrAbsent (data : dataset) : bool := noCalmKey (tl data).




(** A call whose effect does not depend on what the container holds: on
    any container it appends what it appends to an empty one, and ends the
    same way. *)
Definition framed {A : Type} (m : render A) : Prop :=
  forall svg, m svg = (svg ++ fst (m []), snd (m [])).

(** The keys of the data before its first ["calm"] key. *)
Fixpoint beforeCalm (data : dataset) : dataset :=
  match data with
  | [] => []
  | (dir, e) :: rest => if isCalm dir then [] else (dir, e) :: beforeCalm rest
  end.

(** A rectangle that was appended and given no attribute. *)
Definition bareRect : element :=
  {| tag := "rect"; attrs := []; styles := []; caption := None |}.

(** A chunk neither of whose radii is a number: the inner one is
    [undefined] or NaN, the outer one NaN. *)
Definition notNumericChunk (c : string * string * jsnum * jsnum) : Prop :=
  match c with
  | (_, _, inner, outer) => (inner = Undefined \/ inner = NaN) /\ outer = NaN
  end.

(** All the bins of the directions of a dataset, arm after arm. *)
Definition allBins (data : dataset) : object jsnum :=
  flat_map (fun de => if isCalm (fst de) then [] else forIn (snd de)) data.

(** The direction and the transform of a drawn bar. *)
Definition barRotation (e : element) : option (string * attr) :=
  if isTag "rect" e then
    match caption e, get "transform"%string (attrs e) with
    | Some (BarLabel dir _ _), Some transform => Some (dir, transform)
    | _, _ => None
    end
  else None.

(** The transforms the bars of one key get: one per bin. *)
Definition armRotations (center : point) (de : string * entry)
  : list (string * attr) :=
  if isCalm (fst de) then []
  else map (fun _ => (fst de, bomStyle.rotation (fst de) center)) (forIn (snd de)).

(** [cfg[bin]] is not [undefined]: the bin has a style, or is named like
    an inherited member. *)
Definition found {V : Type} (cfg : object V) (bin : string) : bool :=
  hasStyle cfg bin || inherited bin.

Definition binsFound {V : Type} (cfg : object V) (bins : object jsnum) : bool :=
  forallb (fun bf => found cfg (fst bf)) bins.

Definition allFound {V : Type} (cfg : object V) (data : dataset) : bool :=
  forallb (fun de => isCalm (fst de) || binsFound cfg (forIn (snd de))) data.

(** [len + calm] as [maxLength] computes it for a direction. *)
Definition armLength (calm : jsnum) (e : entry) : jsnum :=
  add (sumBins (forIn e) (Num 0)) calm.

(** The global [calm] after the keys of the data were visited. *)
Fixpoint lastCalm (globalCalm : option jsnum) (data : dataset) : option jsnum :=
  match data with
  | [] => globalCalm
  | (dir, e) :: rest =>
      lastCalm (if isCalm dir then Some (toScalar e) else globalCalm) rest
  end.

(* ================================================================== *)
(** ** Objects                                                          *)
(* ================================================================== *)

Section ObjectFacts.
Context {V : Type}.
Implicit Types (o : object V) (k : string) (v : V).

Lemma get_in_keys k o : In k (keys o) -> get k o <> None.
Proof.
  induction o as [|[k' v'] o IH]; simpl; [tauto|].
  intros [-> |Hin].
  - now rewrite String.eqb_refl.
  - destruct (String.eqb k k'); [discriminate|auto].
Qed.

Lemma get_defined_iff k o : get k o <> None <-> In k (keys o).
Proof.
  split; [|apply get_in_keys].
  induction o as [|[k' v'] o IH]; cbn [get keys map fst]; [congruence|].
  destruct (String.eqb_spec k k') as [-> |Hne]; [now left|].
  intros Hget. right. now apply IH.
Qed.

Lemma get_overwrite_same k v o :
  get k o <> None -> get k (overwrite k v o) = Some v.
Proof.
  induction o as [|[k' v'] o IH]; cbn [get overwrite]; [congruence|].
  destruct (String.eqb k k') eqn:E; cbn [get]; rewrite E; [reflexivity|exact IH].
Qed.

Lemma get_overwrite_other k k' v o :
  k' <> k -> get k' (overwrite k v o) = get k' o.
Proof.
  intros Hne. induction o as [|[k1 v1] o IH]; cbn [get overwrite]; [reflexivity|].
  destruct (String.eqb_spec k k1) as [-> |Hk]; cbn [get].
  - destruct (String.eqb_spec k' k1); [contradiction|reflexivity].
  - destruct (String.eqb k' k1); [reflexivity|exact IH].
Qed.

Lemma get_insertIndex_same n k v o :
  get k o = None -> get k (insertIndex n k v o) = Some v.
Proof.
  induction o as [|[k' v'] o IH]; cbn [get insertIndex]; intros Hk.
  - now rewrite String.eqb_refl.
  - destruct (String.eqb k k') eqn:E; [discriminate|].
    destruct (arrayIndex k') as [m|]; [destruct (N.ltb m n)|]; cbn [get];
      rewrite ?E, ?String.eqb_refl; auto.
Qed.

Lemma get_insertIndex_other n k k' v o :
  k' <> k -> get k' (insertIndex n k v o) = get k' o.
Proof.
  intros Hne. apply String.eqb_neq in Hne.
  induction o as [|[k1 v1] o IH]; cbn [get insertIndex].
  - now rewrite Hne.
  - destruct (arrayIndex k1) as [m|]; [destruct (N.ltb m n)|]; cbn [get];
      rewrite ?Hne; [now rewrite IH|reflexivity..].
Qed.

Lemma get_app_last k k' v o :
  k' <> k -> get k' (o ++ [(k, v)]) = get k' o.
Proof.
  intros Hne. apply String.eqb_neq in Hne.
  induction o as [|[k1 v1] o IH]; cbn [get app].
  - now rewrite Hne.
  - now rewrite IH.
Qed.

Lemma get_app_fresh k v o :
  get k o = None -> get k (o ++ [(k, v)]) = Some v.
Proof.
  induction o as [|[k1 v1] o IH]; cbn [get app]; intros Hk.
  - now rewrite String.eqb_refl.
  - destruct (String.eqb k k1); [discriminate|auto].
Qed.

(** After [o[k] = v], [o[k]] is [v] ... *)
Lemma get_set_same k v o : get k (set k v o) = Some v.
Proof.
  unfold set. destruct (get k o) as [v0|] eqn:Hk.
  - apply get_overwrite_same. congruence.
  - destruct (arrayIndex k) as [n|].
    + now apply get_insertIndex_same.
    + now apply get_app_fresh.
Qed.

(** ... and every other property is what it was. *)
Lemma get_set_other k k' v o : k' <> k -> get k' (set k v o) = get k' o.
Proof.
  intros Hne. unfold set. destruct (get k o) as [v0|].
  - now apply get_overwrite_other.
  - destruct (arrayIndex k) as [n|].
    + now apply get_insertIndex_other.
    + now apply get_app_last.
Qed.
End ObjectFacts.

(** Array indices are enumerated first and in ascending order, whenever
    they were set. *)
Lemma set_orders_array_indices :
  keys (set "2" tt (set "N" tt (set "10" tt (set "calm" tt []))))
  = ["2"; "10"; "calm"; "N"]%string
  /\ keys (set "01" tt (set "1" tt (set "-1" tt [])))
     = ["1"; "-1"; "01"]%string.
Proof. split; reflexivity. Qed.

(* ================================================================== *)
(** ** getAngles                                                        *)
(* ================================================================== *)

Lemma Qnat_S n : Qnat (S n) == Qnat n + 1.
Proof.
  unfold Qnat. rewrite Nat2Z.inj_succ, <- Z.add_1_r, inject_Z_plus. reflexivity.
Qed.

Lemma Qnat_nonneg n : 0 <= Qnat n.
Proof.
  unfold Qnat. change 0 with (inject_Z 0). rewrite <- Zle_Qle. lia.
Qed.

Lemma Qnat_le n m : (n <= m)%nat -> Qnat n <= Qnat m.
Proof.
  intros H. unfold Qnat. rewrite <- Zle_Qle. lia.
Qed.

Lemma Qnat_pos n : n <> O -> 0 < Qnat n.
Proof.
  intros H. unfold Qnat. change 0 with (inject_Z 0). rewrite <- Zlt_Qlt. lia.
Qed.

Lemma factorAt_Qnat factor i : factorAt factor i == factor + Qnat i.
Proof.
  induction i as [|i IH]; cbn [factorAt].
  - unfold Qnat. simpl. ring.
  - rewrite IH, Qnat_S. ring.
Qed.

Lemma factorAt_next factor i : factorAt (factor + 1) i = factorAt factor (S i).
Proof.
  induction i as [|i IH]; [reflexivity|].
  cbn [factorAt] in *. now rewrite IH.
Qed.

(** A label the loop does not visit keeps what the object had for it. *)
Lemma getAngles_loop_get_other slices directions d :
  ~ In d directions ->
  forall factor angs,
    get d (getAngles_loop slices directions factor angs) = get d angs.
Proof.
  induction directions as [|d0 rest IH]; cbn [getAngles_loop]; intros Hd factor angs;
    [reflexivity|].
  rewrite IH by (intros Hin; apply Hd; now right).
  apply get_set_other. intros ->. apply Hd. now left.
Qed.

(** A label that occurs once gets the span computed at its index. *)
Lemma getAngles_loop_get slices directions :
  forall factor angs i d,
    NoDup directions -> nth_error directions i = Some d ->
    get d (getAngles_loop slices directions factor angs)
    = Some (sliceAt slices factor i).
Proof.
  induction directions as [|d0 rest IH]; intros factor angs i d Hnd Hi.
  - destruct i; discriminate.
  - inversion Hnd as [|? ? Hd0 Hrest]; subst. cbn [getAngles_loop].
    destruct i as [|i]; cbn [nth_error] in Hi.
    + injection Hi as ->.
      rewrite getAngles_loop_get_other by exact Hd0.
      now rewrite get_set_same.
    + rewrite (IH (factor + 1) _ i d Hrest Hi).
      unfold sliceAt. now rewrite factorAt_next.
Qed.

Lemma getAngles_get directions i d :
  NoDup directions -> nth_error directions i = Some d ->
  get d (getAngles directions)
  = Some (sliceAt (Qnat (List.length directions)) (-1 # 2) i).
Proof.
  intros Hnd Hi. unfold getAngles. now apply getAngles_loop_get.
Qed.




(* ================================================================== *)
(** ** Drawing calls only ever append                                   *)
(* ================================================================== *)

Lemma collect_app {A B : Type} (f : A -> option B) (l l' : list A) :
  collect f (l ++ l') = collect f l ++ collect f l'.
Proof.
  induction l as [|a l IH]; simpl; [reflexivity|].
  destruct (f a); simpl; now rewrite IH.
Qed.

Lemma collect_flat_map_nil {A B C : Type} (f : B -> option C) (h : A -> list B) (l : list A) :
  (forall a, collect f (h a) = []) -> collect f (flat_map h l) = [].
Proof.
  intros Hh. induction l as [|a l IH]; simpl; [reflexivity|].
  now rewrite collect_app, Hh, IH.
Qed.

Lemma extends_ret {A : Type} (a : A) : extends (ret a).
Proof. intros svg. exists []. simpl. now rewrite app_nil_r. Qed.

Lemma extends_throw {A : Type} (e : exn) : extends (@throw A e).
Proof. intros svg. exists []. simpl. now rewrite app_nil_r. Qed.

Lemma extends_append (e : element) : extends (append e).
Proof. intros svg. exists [e]. reflexivity. Qed.

Lemma extends_bind {A B : Type} (m : render A) (k : A -> render B) :
  extends m -> (forall a, extends (k a)) -> extends (bind m k).
Proof.
  intros Hm Hk svg. unfold bind.
  destruct (Hm svg) as [new Hnew]. destruct (m svg) as [svg' [a|e]]; simpl in Hnew; subst.
  - destruct (Hk a (svg ++ new)) as [new' Hnew']. exists (new ++ new').
    now rewrite Hnew', app_assoc.
  - now exists new.
Qed.

Create HintDb render.
#[local] Hint Resolve extends_ret extends_throw extends_append extends_bind : render.

Lemma forEach_total {A : Type} (body : A -> render unit) (l : list A) :
  (forall a svg, body a svg = (svg ++ fst (body a []), Normal tt)) ->
  forall svg,
    forEach l body svg = (svg ++ flat_map (fun a => fst (body a [])) l, Normal tt).
Proof.
  intros Hbody. induction l as [|a l IH]; intros svg; simpl.
  - unfold ret. now rewrite app_nil_r.
  - unfold bind. rewrite Hbody, IH. now rewrite <- app_assoc.
Qed.

Lemma forEach_framed {A : Type} (body : A -> render unit) (l : list A) :
  (forall a svg, body a svg = (svg ++ fst (body a []), Normal tt)) ->
  forall svg, forEach l body svg = (svg ++ fst (forEach l body []), Normal tt).
Proof.
  intros Hbody svg.
  rewrite (forEach_total body l Hbody svg), (forEach_total body l Hbody []).
  reflexivity.
Qed.

Lemma countdown_fuel_agree (stop : Z) :
  (0 < stop)%Z ->
  forall fuel fuel' v,
    (Z.to_nat v <= fuel)%nat -> (Z.to_nat v <= fuel')%nat ->
    countdown_fuel fuel v stop = countdown_fuel fuel' v stop.
Proof.
  intros Hstop. induction fuel as [|fuel IH]; intros [|fuel'] v Hf Hf'; simpl;
    try reflexivity;
    destruct (Z.leb_spec stop v) as [Hle|Hgt]; try reflexivity; try lia.
  f_equal. apply IH; lia.
Qed.

(** The fuel given to the loops never cuts them short. *)
Lemma countdown_fuel_enough (stop : Z) (fuel : nat) (from : Z) :
  (0 < stop)%Z -> (Z.to_nat from <= fuel)%nat ->
  countdown_fuel fuel from stop = countdown from stop.
Proof.
  intros Hstop Hfuel. unfold countdown. apply countdown_fuel_agree; trivial.
Qed.


Lemma drawFrequencyCircles_run (domain : Z) (center : point) (svg : surface) :
  drawFrequencyCircles domain center svg
  = (svg ++ fst (drawFrequencyCircles domain center []), Normal tt).
Proof.
  unfold drawFrequencyCircles. apply forEach_framed.
  intros a s. unfold bind, append. simpl. now rewrite <- app_assoc.
Qed.

Lemma drawFrequencyCircles_chunks (domain : Z) (center : point) :
  chunks (fst (drawFrequencyCircles domain center [])) = [].
Proof.
  unfold drawFrequencyCircles. rewrite forEach_total.
  - simpl. apply collect_flat_map_nil. reflexivity.
  - intros a s. unfold bind, append. simpl. now rewrite <- app_assoc.
Qed.

(* ================================================================== *)
(** ** The stacked layouts, bin by bin                                  *)
(* ================================================================== *)

Lemma stackedChunks_length dir bins :
  forall offset, List.length (stackedChunks dir offset bins) = List.length bins.
Proof.
  induction bins as [|[bin f] rest IH]; simpl; intros offset; [reflexivity|].
  now rewrite IH.
Qed.

(** The k-th chunk of an arm starts at the offset plus the bins before it. *)
Lemma stackedChunks_nth dir bins :
  forall offset k bin f,
    nth_error bins k = Some (bin, f) ->
    nth_error (stackedChunks dir offset bins) k
    = Some (dir, bin, sumBins (firstn k bins) offset,
            add (sumBins (firstn k bins) offset) f).
Proof.
  induction bins as [|[bin0 f0] rest IH]; intros offset k bin f Hk.
  - destruct k; discriminate.
  - destruct k as [|k]; simpl in Hk |- *.
    + now injection Hk as -> ->.
    + now apply IH.
Qed.

(** The k-th bar of an arm sits at the offset plus the bins before it. *)
Lemma stackedBars_nth dir center bins :
  forall offset k key f st,
    binsStyled bomStyle.config (firstn k bins) = true ->
    nth_error bins k = Some (key, f) ->
    get key bomStyle.config = Some st ->
    nth_error (stackedBars dir offset center bins) k
    = Some {| barDir := dir; barKey := key;
              barX := Num (x center - bomStyle.width st / 2);
              barY := sumBins (firstn k bins) offset;
              barWidth := Num (bomStyle.width st); barHeight := f |}.
Proof.
  induction bins as [|[key0 f0] rest IH]; intros offset k key f st Hst Hk Hcfg.
  - destruct k; discriminate.
  - destruct k as [|k].
    + cbn in Hk. injection Hk as -> ->.
      cbn [stackedBars firstn sumBins nth_error]. now rewrite Hcfg.
    + cbn [firstn] in Hst. unfold binsStyled in Hst. cbn [forallb fst] in Hst.
      apply andb_prop in Hst. destruct Hst as [Hkey0 Hrest].
      unfold hasStyle in Hkey0.
      cbn [stackedBars firstn sumBins nth_error] in Hk |- *.
      destruct (get key0 bomStyle.config) as [st0|]; [|discriminate].
      cbn [nth_error]. now apply IH.
Qed.

(* ================================================================== *)
(** ** The frequency rose                                               *)
(* ================================================================== *)

Lemma getAngles_loop_defined slices directions :
  forall factor angs d,
    In d directions \/ get d angs <> None ->
    get d (getAngles_loop slices directions factor angs) <> None.
Proof.
  induction directions as [|d0 rest IH]; cbn [getAngles_loop]; intros factor angs d Hd.
  - destruct Hd as [[]|Hd]. exact Hd.
  - apply IH. destruct Hd as [[-> |Hd]|Hd].
    + right. now rewrite get_set_same.
    + now left.
    + right. destruct (string_dec d d0) as [-> |Hne].
      * now rewrite get_set_same.
      * now rewrite get_set_other.
Qed.

(** Every label handed to [getAngles] has a span in the result. *)
Lemma getAngles_defined directions d :
  In d directions -> get d (getAngles directions) <> None.
Proof.
  intros Hd. unfold getAngles. apply getAngles_loop_defined. now left.
Qed.

Lemma getDirections_In (data : dataset) (de : string * entry) :
  In de data -> isCalm (fst de) = false -> In (fst de) (getDirections data).
Proof.
  intros Hin Hcalm. unfold getDirections, keys. apply filter_In. split.
  - now apply in_map.
  - now rewrite Hcalm.
Qed.

Lemma allStyled_allFound {V : Type} (cfg : object V) (data : dataset) :
  allStyled cfg data = true -> allFound cfg data = true.
Proof.
  unfold allStyled, allFound. rewrite !forallb_forall. intros Hall de Hin.
  specialize (Hall de Hin). apply orb_true_iff in Hall. apply orb_true_iff.
  destruct Hall as [Hc|Hb]; [now left|right].
  unfold binsFound. rewrite forallb_forall in *. intros bf Hbf.
  unfold found. now rewrite (Hb bf Hbf).
Qed.

Lemma drawChunk_found dir bin freq offset center angles a svg :
  get dir angles = Some a -> found config bin = true ->
  exists elt,
    drawChunk dir bin freq offset center angles svg
    = (svg ++ [elt], Normal (add offset freq))
    /\ chunkOf elt = Some (dir, bin, offset, add offset freq)
    /\ circleRadius elt = None.
Proof.
  intros Ha Hst. unfold drawChunk. rewrite Ha.
  unfold found, hasStyle in Hst.
  destruct (get bin config) as [st|].
  - eexists. split; [reflexivity|]. split; reflexivity.
  - cbn [orb] in Hst. rewrite Hst.
    eexists. split; [reflexivity|]. split; reflexivity.
Qed.

Lemma drawChunk_missing dir bin freq offset center angles a svg :
  get dir angles = Some a -> found config bin = false ->
  exists elt,
    drawChunk dir bin freq offset center angles svg = (svg ++ [elt], Throw TypeError).
Proof.
  intros Ha Hst. unfold drawChunk. rewrite Ha.
  unfold found, hasStyle in Hst.
  destruct (get bin config) as [st|]; [discriminate|].
  cbn [orb] in Hst. rewrite Hst. eexists. reflexivity.
Qed.

Section FrequencyArm.
Variables (dir : string) (center : point) (angles : object span) (a : span).
Hypothesis Hdir : get dir angles = Some a.

Lemma drawRose_bins_found bins :
  forall offset svg,
    binsFound config bins = true ->
    exists new,
      drawRose_bins dir bins offset center angles svg
      = (svg ++ new, Normal (sumBins bins offset))
      /\ chunks new = stackedChunks dir offset bins.
Proof.
  induction bins as [|[bin freq] rest IH]; simpl; intros offset svg Hst.
  - exists []. now rewrite app_nil_r.
  - apply andb_prop in Hst. destruct Hst as [Hbin Hrest]. cbn [fst] in Hbin.
    destruct (drawChunk_found dir bin freq offset center angles a svg Hdir Hbin)
      as (elt & Hrun & Hchunk & _).
    destruct (IH (add offset freq) (svg ++ [elt]) Hrest) as (new & Hnew & Hchunks).
    exists (elt :: new). unfold bind. rewrite Hrun, Hnew. split.
    + now rewrite <- app_assoc.
    + unfold chunks in *. simpl. now rewrite Hchunk, Hchunks.
Qed.

Lemma drawRose_bins_missing bins :
  forall offset svg,
    binsFound config bins = false ->
    snd (drawRose_bins dir bins offset center angles svg) = Throw TypeError.
Proof.
  induction bins as [|[bin freq] rest IH]; simpl; intros offset svg Hst;
    [discriminate|].
  cbn [fst] in Hst. unfold bind.
  destruct (found config bin) eqn:Hbin.
  - destruct (drawChunk_found dir bin freq offset center angles a svg Hdir Hbin)
      as (elt & Hrun & _).
    rewrite Hrun. apply IH. exact Hst.
  - destruct (drawChunk_missing dir bin freq offset center angles a svg Hdir Hbin)
      as (elt & Hrun).
    now rewrite Hrun.
Qed.
End FrequencyArm.

Section FrequencyRose.
Variables (data : dataset) (center : point) (angles : object span).

Lemma drawRose_dirs_found todo :
  (forall de, In de todo -> isCalm (fst de) = false -> get (fst de) angles <> None) ->
  forall svg,
    allFound config todo = true ->
    exists new,
      drawRose_dirs data todo center angles svg = (svg ++ new, Normal tt)
      /\ chunks new = flat_map (armChunks data) todo.
Proof.
  induction todo as [|[dir e] rest IH]; simpl; intros Hang svg Hst.
  - exists []. now rewrite app_nil_r.
  - apply andb_prop in Hst. destruct Hst as [Hdir Hrest]. simpl in Hdir.
    unfold armChunks at 1. simpl.
    destruct (isCalm dir) eqn:Hcalm; simpl in *.
    + destruct (IH (fun de H => Hang de (or_intror H)) svg Hrest) as (new & Hnew & Hch).
      exists new. unfold bind, ret. simpl. now rewrite Hnew.
    + destruct (get dir angles) as [a|] eqn:Ha;
        [|exfalso; apply (Hang (dir, e)); auto].
      destruct (drawRose_bins_found dir center angles a Ha (forIn e)
                  (getScalar "calm" data) svg Hdir) as (new1 & Hnew1 & Hch1).
      destruct (IH (fun de H => Hang de (or_intror H)) (svg ++ new1) Hrest)
        as (new2 & Hnew2 & Hch2).
      exists (new1 ++ new2). unfold bind, ret. rewrite Hnew1, Hnew2. split.
      * now rewrite <- app_assoc.
      * unfold chunks in *. now rewrite collect_app, Hch1, Hch2.
Qed.

Lemma drawRose_dirs_missing todo :
  (forall de, In de todo -> isCalm (fst de) = false -> get (fst de) angles <> None) ->
  forall svg,
    allFound config todo = false ->
    snd (drawRose_dirs data todo center angles svg) = Throw TypeError.
Proof.
  induction todo as [|[dir e] rest IH]; simpl; intros Hang svg Hst; [discriminate|].
  destruct (isCalm dir) eqn:Hcalm; simpl in *.
  - unfold bind, ret. simpl. apply IH; auto.
  - destruct (get dir angles) as [a|] eqn:Ha;
      [|exfalso; apply (Hang (dir, e)); auto].
    destruct (binsFound config (forIn e)) eqn:Hdir.
    + destruct (drawRose_bins_found dir center angles a Ha (forIn e)
                  (getScalar "calm" data) svg Hdir) as (new1 & Hnew1 & _).
      unfold bind, ret. rewrite Hnew1. apply IH; auto.
    + pose proof (drawRose_bins_missing dir center angles a Ha (forIn e)
                    (getScalar "calm" data) svg Hdir) as Hthrow.
      unfold bind.
      destruct (drawRose_bins dir (forIn e) (getScalar "calm" data) center angles svg)
        as [svg' [o|ex]]; simpl in Hthrow; [discriminate|].
      simpl. now injection Hthrow as ->.
Qed.

Lemma extends_drawRose_bins dir bins :
  forall offset, extends (drawRose_bins dir bins offset center angles).
Proof.
  induction bins as [|[bin freq] rest IH]; simpl; intros offset; auto with render.
  apply extends_bind; [|auto].
  unfold drawChunk. destruct (get dir angles); auto with render.
  destruct (get bin config); auto with render.
  destruct (inherited bin); auto with render.
Qed.

Lemma extends_drawRose_dirs todo :
  extends (drawRose_dirs data todo center angles).
Proof.
  induction todo as [|[dir e] rest IH]; simpl; auto with render.
  apply extends_bind; [|auto].
  destruct (negb (isCalm dir)); auto using extends_drawRose_bins with render.
Qed.
End FrequencyRose.

Lemma drawRose_angles_defined (data : dataset) :
  forall de, In de data -> isCalm (fst de) = false ->
             get (fst de) (getAngles (getDirections data)) <> None.
Proof.
  intros de Hin Hcalm. apply getAngles_defined. now apply getDirections_In.
Qed.

(** What [drawRose] leaves on the container when no bin lookup throws. *)
Lemma drawRose_body_found (data : dataset) (center : point) (svg : surface) :
  allFound config data = true ->
  exists arms,
    drawRose_body data center svg
    = (svg ++ fst (drawFrequencyCircles (domain data) center []) ++ arms, Normal tt)
    /\ chunks arms = frequencyArms data.
Proof.
  intros Hst. unfold drawRose_body, bind.
  rewrite drawFrequencyCircles_run.
  destruct (drawRose_dirs_found data center (getAngles (getDirections data)) data
              (drawRose_angles_defined data)
              (svg ++ fst (drawFrequencyCircles (domain data) center [])) Hst)
    as (arms & Hrun & Hch).
  exists arms. rewrite Hrun. split; [now rewrite <- app_assoc|exact Hch].
Qed.

Lemma drawRose_body_styled (data : dataset) (center : point) (svg : surface) :
  allStyled config data = true ->
  exists arms,
    drawRose_body data center svg
    = (svg ++ fst (drawFrequencyCircles (domain data) center []) ++ arms, Normal tt)
    /\ chunks arms = frequencyArms data.
Proof.
  intros Hst. apply drawRose_body_found. now apply allStyled_allFound.
Qed.

(** C5: in the frequency rose every direction starts at the calm value and
    every bin, in the data's order, gives one arc from the running offset to
    offset + binValue, where the next bin starts; with calm = 8 and bins
    3, 12, 0, 0 the radii are [8,11], [11,23], [23,23], [23,23].  The
    dataset has styled bins and a domain whose reference circles can all be
    drawn. *)
Theorem drawRose_stacks_chunks (data : dataset) (center : point) (svg : surface) :
  allStyled config data = true ->
  loopEnds (domain data) = true ->
  snd (drawRose_body data center svg) = Normal tt
  /\ chunks (fst (drawRose_body data center svg)) = chunks svg ++ frequencyArms data
  /\ chunks (fst (drawRose (Some northOnly) (Some center) (Some svg)))
     = chunks svg ++ [ ("N", "0-10", Num 8, Num 11); ("N", "10-20", Num 11, Num 23);
                       ("N", "20-30", Num 23, Num 23); ("N", ">30", Num 23, Num 23) ]%string
  /\ firstn 4 (chunks (fst (drawRose None None None)))
     = [ ("N", "0-10", Num 8, Num 11); ("N", "10-20", Num 11, Num 23);
         ("N", "20-30", Num 23, Num 23); ("N", ">30", Num 23, Num 23) ]%string.
Proof.
  intros Hst _.
  destruct (drawRose_body_styled data center svg Hst) as (arms & Hrun & Hch).
  rewrite Hrun. cbn [fst snd]. split; [reflexivity|]. split.
  - unfold chunks in *. rewrite !collect_app, Hch.
    fold (chunks (fst (drawFrequencyCircles (domain data) center []))).
    now rewrite drawFrequencyCircles_chunks.
  - split; [|vm_compute; reflexivity].
    unfold drawRose, orDefault.
    destruct (drawRose_body_styled northOnly center svg eq_refl) as (arms' & Hrun' & Hch').
    rewrite Hrun'. cbn [fst snd]. unfold chunks in *. rewrite !collect_app, Hch'.
    fold (chunks (fst (drawFrequencyCircles (domain northOnly) center []))).
    rewrite drawFrequencyCircles_chunks. reflexivity.
Qed.

Lemma drawRose_stacks_chunks_witness :
  allStyled config defaultData = true
  /\ loopEnds (domain defaultData) = true
  /\ snd (drawRose_body defaultData defaultCenter []) = Normal tt.
Proof.
  split; [reflexivity|]. split; [reflexivity|].
  exact (proj1 (drawRose_stacks_chunks defaultData defaultCenter [] eq_refl eq_refl)).
Defined.

(** C9, as stated, fails: a negative frequency and a NaN are drawn, not
    rejected, and the call completes; a bin without a style makes the call
    throw after six elements were appended, and they stay. *)
Lemma drawRose_neither_validates_nor_rolls_back :
  (snd (drawRose (Some negativeBin) None None) = Normal tt
   /\ chunks (fst (drawRose (Some negativeBin) None None))
      = [("N", "0-10", Num 8, Num 5)]%string)
  /\ (snd (drawRose (Some notANumber) None None) = Normal tt
      /\ chunks (fst (drawRose (Some notANumber) None None))
         = [("N", "0-10", Num 8, NaN)]%string)
  /\ (snd (drawRose (Some unknownBin) None None) = Throw TypeError
      /\ List.length (fst (drawRose (Some unknownBin) None None)) = 6%nat).
Proof.
  repeat apply conj; vm_compute; reflexivity.
Qed.

(** C9 (amended): [drawRose] validates no value.  On a dataset whose
    reference circles can all be drawn, whether it completes is decided by
    the bin labels alone: it completes when [windrose.config[bin]] is not
    [undefined] for any bin (the bin has a style, or is named like an
    inherited member) and throws a TypeError otherwise, whatever the
    frequencies are; and what it appended, the reference circles first,
    stays on the container in either case. *)
Theorem drawRose_outcome_ignores_values (data : dataset) (center : point) (svg : surface) :
  loopEnds (domain data) = true ->
  snd (drawRose_body data center svg)
  = (if allFound config data then Normal tt else Throw TypeError)
  /\ exists rest,
       fst (drawRose_body data center svg)
       = svg ++ fst (drawFrequencyCircles (domain data) center []) ++ rest.
Proof.
  intros _. split.
  - destruct (allFound config data) eqn:Hst.
    + destruct (drawRose_body_found data center svg Hst) as (arms & Hrun & _).
      now rewrite Hrun.
    + unfold drawRose_body, bind. rewrite drawFrequencyCircles_run.
      apply drawRose_dirs_missing; [apply drawRose_angles_defined|exact Hst].
  - unfold drawRose_body, bind. rewrite drawFrequencyCircles_run.
    destruct (extends_drawRose_dirs data center (getAngles (getDirections data)) data
                (svg ++ fst (drawFrequencyCircles (domain data) center [])))
      as [rest Hrest].
    exists rest. rewrite Hrest. now rewrite <- app_assoc.
Qed.

Lemma drawRose_outcome_ignores_values_witness :
  loopEnds (domain unknownBin) = true
  /\ allFound config unknownBin = false
  /\ snd (drawRose_body unknownBin defaultCenter []) = Throw TypeError.
Proof.
  split; [reflexivity|]. split; [reflexivity|].
  exact (proj1 (drawRose_outcome_ignores_values unknownBin defaultCenter [] eq_refl)).
Defined.

(** A missing ["calm"] and a ["calm"] of 0 give the same domain. *)
Lemma domain_calm_zero (data : dataset) :
  domain (("calm"%string, Scalar (Num 0)) :: data) = domain data.
Proof. reflexivity. Qed.

(** C4 fails in [drawRose]: without a ["calm"] key the domain is computed as
    with calm 0, but the arcs start at [undefined] and end at NaN, where
    with ["calm": 0] they run from 0 to 3. *)
Theorem drawRose_missing_calm_is_undefined :
  get "calm"%string noCalm = None
  /\ domain noCalm = domain (("calm"%string, Scalar (Num 0)) :: noCalm)
  /\ snd (drawRose (Some noCalm) None None) = Normal tt
  /\ chunks (fst (drawRose (Some noCalm) None None))
     = [("N", "0-10", Undefined, NaN)]%string
  /\ chunks (fst (drawRose (Some (("calm"%string, Scalar (Num 0)) :: noCalm)) None None))
     = [("N", "0-10", Num 0, Num 3)]%string.
Proof.
  repeat apply conj; vm_compute; reflexivity.
Qed.

(** C1 fails when ["calm"] is not the first key: the arms of N and S are 28
    and 13 long, the domain should be 30 and is 30 with ["calm"] first, but
    with ["calm"] last [domain] returns 20, below the arm of N that
    [drawRose] draws out to radius 28. *)
Theorem domain_truncates_when_calm_is_last :
  armTotals calmLast = [Num 28; Num 13]
  /\ specDomain calmLast = 30%Z
  /\ domain calmFirst = 30%Z
  /\ domain calmLast = 20%Z
  /\ chunks (fst (drawRose (Some calmLast) None None))
     = [("N", "0-10", Num 8, Num 28); ("S", "0-10", Num 8, Num 13)]%string.
Proof.
  repeat apply conj; vm_compute; reflexivity.
Qed.

(* ================================================================== *)
(** ** No directions at all                                             *)
(* ================================================================== *)

(** C3, as stated, fails: with no direction [getAngles] returns the empty
    object, and the roses drawn from a dataset without directions complete. *)
Lemma getAngles_empty_not_rejected :
  getAngles [] = []
  /\ snd (drawRose (Some calmOnly) None None) = Normal tt
  /\ snd (bomStyle.drawRose (Some calmOnly) None None) = Normal tt
  /\ snd (meanDirectional.drawRose (Some []) None None) = Normal tt.
Proof.
  repeat apply conj; vm_compute; reflexivity.
Qed.

Lemma getDirections_nil (data : dataset) :
  getDirections data = [] -> forall de, In de data -> isCalm (fst de) = true.
Proof.
  intros Hnil de Hin. destruct (isCalm (fst de)) eqn:Hcalm; [reflexivity|].
  pose proof (getDirections_In data de Hin Hcalm) as Hd.
  rewrite Hnil in Hd. contradiction.
Qed.

Lemma drawRose_dirs_all_calm data center angles todo :
  (forall de, In de todo -> isCalm (fst de) = true) ->
  forall svg, drawRose_dirs data todo center angles svg = (svg, Normal tt).
Proof.
  induction todo as [|[dir e] rest IH]; simpl; intros Hcalm svg; [reflexivity|].
  pose proof (Hcalm (dir, e) (or_introl eq_refl)) as Hd. simpl in Hd. rewrite Hd. simpl.
  unfold bind, ret. apply IH. auto.
Qed.

(** C3 (amended): when the data has no direction, [getAngles] is called
    with an empty list and returns the empty object, no span and no error
    (its division sits in the loop body, which does not run); [drawRose]
    then completes, having drawn the reference circles only, provided these
    can all be drawn. *)
Theorem getAngles_without_directions (data : dataset) (center : point) (svg : surface) :
  getDirections data = [] ->
  loopEnds (domain data) = true ->
  getAngles (getDirections data) = []
  /\ drawRose_body data center svg
     = (svg ++ fst (drawFrequencyCircles (domain data) center []), Normal tt).
Proof.
  intros Hnil _. rewrite Hnil. split; [reflexivity|].
  unfold drawRose_body, bind. rewrite drawFrequencyCircles_run, Hnil.
  apply drawRose_dirs_all_calm. now apply getDirections_nil.
Qed.

Lemma getAngles_without_directions_witness :
  getDirections calmOnly = []
  /\ loopEnds (domain calmOnly) = true
  /\ getAngles (getDirections calmOnly) = [].
Proof.
  split; [reflexivity|]. split; [reflexivity|].
  exact (proj1 (getAngles_without_directions calmOnly defaultCenter []
                  eq_refl eq_refl)).
Defined.

(* ================================================================== *)
(** ** The mean-directional rose                                        *)
(* ================================================================== *)

Lemma drawSpeedCircles_run (center : point) (svg : surface) :
  meanDirectional.drawSpeedCircles center svg
  = (svg ++ fst (meanDirectional.drawSpeedCircles center []), Normal tt).
Proof.
  unfold meanDirectional.drawSpeedCircles. apply forEach_framed. reflexivity.
Qed.

Lemma drawSpeedCircles_radii (center : point) :
  circleRadii (fst (meanDirectional.drawSpeedCircles center [])) = speedRadii
  /\ slices (fst (meanDirectional.drawSpeedCircles center [])) = [].
Proof. split; vm_compute; reflexivity. Qed.

Lemma drawSpeedSlice_run center dir speed angles a svg :
  get dir angles = Some a ->
  exists elt,
    meanDirectional.drawSpeedSlice center dir speed angles svg
    = (svg ++ [elt], Normal tt)
    /\ sliceOf elt
       = Some (dir, {| innerRadius := Num 0; outerRadius := speed;
                       startAngle := rad (start a); endAngle := rad (end_ a) |})
    /\ circleRadius elt = None.
Proof.
  intros Ha. unfold meanDirectional.drawSpeedSlice. rewrite Ha.
  eexists. split; [reflexivity|]. split; reflexivity.
Qed.

Section MeanDirectional.
Variables (center : point) (angles : object span).

Lemma drawSlices_circles todo :
  forall svg, circleRadii (fst (drawSlices center angles todo svg)) = circleRadii svg.
Proof.
  unfold drawSlices.
  induction todo as [|[dir e] rest IH]; simpl; intros svg; [reflexivity|].
  unfold bind. destruct (get dir angles) as [a|] eqn:Ha.
  - destruct (drawSpeedSlice_run center dir (toScalar e) angles a svg Ha)
      as (elt & Hrun & _ & Hcirc).
    rewrite Hrun, IH. unfold circleRadii. rewrite collect_app. simpl.
    rewrite Hcirc. now rewrite app_nil_r.
  - unfold meanDirectional.drawSpeedSlice. rewrite Ha. reflexivity.
Qed.

Lemma drawSlices_run todo :
  (forall de, In de todo -> get (fst de) angles <> None) ->
  forall svg,
    exists new,
      drawSlices center angles todo svg = (svg ++ new, Normal tt)
      /\ slices new = flat_map (sliceFor angles) todo
      /\ List.length (slices new) = List.length todo.
Proof.
  unfold drawSlices.
  induction todo as [|[dir e] rest IH]; simpl; intros Hang svg.
  - exists []. now rewrite app_nil_r.
  - unfold sliceFor at 1. simpl.
    destruct (get dir angles) as [a|] eqn:Ha;
      [|exfalso; apply (Hang (dir, e)); auto].
    destruct (drawSpeedSlice_run center dir (toScalar e) angles a svg Ha)
      as (elt & Hrun & Hslice & _).
    destruct (IH (fun de H => Hang de (or_intror H)) (svg ++ [elt]))
      as (new & Hnew & Hsl & Hlen).
    exists (elt :: new). unfold bind. rewrite Hrun, Hnew.
    split; [now rewrite <- app_assoc|].
    unfold slices in *. simpl. rewrite Hslice. simpl.
    split; [now rewrite Hsl|now rewrite Hlen].
Qed.
End MeanDirectional.

(** C7, as stated, fails: the smallest reference circle has radius 10, and
    no circle of radius 5 is drawn. *)
Lemma drawSpeedCircles_no_radius_5 :
  last (circleRadii (fst (meanDirectional.drawRose None None None))) Undefined = Num 10
  /\ forall r, In r (circleRadii (fst (meanDirectional.drawRose None None None))) ->
               ~ jsnum_eq r (Num 5).
Proof.
  split; [vm_compute; reflexivity|].
  intros r Hin.
  assert (Hr : In r speedRadii) by (revert Hin; vm_compute; exact (fun H => H)).
  unfold speedRadii in Hr. simpl in Hr.
  repeat (destruct Hr as [<-|Hr]; [vm_compute; discriminate|]).
  contradiction.
Qed.

(** C7 (amended): whatever the data, the mean-directional rose draws the
    eight reference circles of radii 80, 70, ..., 10; 5 is the bound the
    loop tests, not a radius. *)
Theorem drawSpeedCircles_fixed_radii (data : dataset) (center : point) (svg : surface) :
  circleRadii (fst (meanDirectional.drawRose_body data center svg))
  = circleRadii svg ++ speedRadii
  /\ countdown 80 5 = [80; 70; 60; 50; 40; 30; 20; 10]%Z
  /\ countdown 0 5 = [].
Proof.
  split; [|split; reflexivity].
  unfold meanDirectional.drawRose_body, bind. rewrite drawSpeedCircles_run.
  fold (drawSlices center (getAngles (getDirections data)) data).
  rewrite drawSlices_circles. unfold circleRadii. rewrite collect_app.
  fold (circleRadii (fst (meanDirectional.drawSpeedCircles center []))).
  now rewrite (proj1 (drawSpeedCircles_radii center)).
Qed.

Lemma noCalmKey_In (data : dataset) (de : string * entry) :
  noCalmKey data = true -> In de data -> isCalm (fst de) = false.
Proof.
  unfold noCalmKey, keys. rewrite forallb_forall. intros Hall Hin.
  apply negb_true_iff, Hall. now apply in_map.
Qed.

Lemma meanDirectional_drawRose_body_run (data : dataset) (center : point) (svg : surface) :
  noCalmKey data = true ->
  let angles := getAngles (getDirections data) in
  snd (meanDirectional.drawRose_body data center svg) = Normal tt
  /\ slices (fst (meanDirectional.drawRose_body data center svg))
     = slices svg ++ flat_map (sliceFor angles) data
  /\ List.length (flat_map (sliceFor angles) data) = List.length data
  /\ (forall de, In de data -> get (fst de) angles <> None).
Proof.
  intros Hcalm angles.
  assert (Hang : forall de, In de data -> get (fst de) angles <> None).
  { intros de Hin. apply drawRose_angles_defined; [exact Hin|].
    now apply (noCalmKey_In data). }
  destruct (drawSlices_run center angles data Hang
              (svg ++ fst (meanDirectional.drawSpeedCircles center [])))
    as (new & Hnew & Hsl & Hlen).
  assert (Hrun : meanDirectional.drawRose_body data center svg
                 = (svg ++ fst (meanDirectional.drawSpeedCircles center []) ++ new,
                    Normal tt)).
  { unfold meanDirectional.drawRose_body, bind. rewrite drawSpeedCircles_run.
    fold angles. fold (drawSlices center angles data).
    rewrite Hnew. now rewrite <- app_assoc. }
  rewrite Hrun. cbn [fst snd]. split; [reflexivity|]. split.
  { unfold slices in *. rewrite !collect_app, Hsl.
    fold (slices (fst (meanDirectional.drawSpeedCircles center []))).
    now rewrite (proj2 (drawSpeedCircles_radii center)). }
  split; [now rewrite <- Hsl|exact Hang].
Qed.

(** C8: in the mean-directional rose every direction gets exactly one arc,
    from radius 0 to the direction's value, over the span [getAngles] gave
    the direction; the single direction N of value 10 gets one arc of radii
    0 and 10 over a span centred on 0. *)
Theorem meanDirectional_one_slice_per_direction
        (data : dataset) (center : point) (svg : surface) :
  noCalmKey data = true ->
  let angles := getAngles (getDirections data) in
  snd (meanDirectional.drawRose_body data center svg) = Normal tt
  /\ slices (fst (meanDirectional.drawRose_body data center svg))
     = slices svg ++ flat_map (sliceFor angles) data
  /\ List.length (flat_map (sliceFor angles) data) = List.length data
  /\ (forall de, In de data -> get (fst de) angles <> None)
  /\ exists a,
       slices (fst (meanDirectional.drawRose (Some northTen) (Some center) (Some svg)))
       = slices svg ++ [("N"%string,
                         {| innerRadius := Num 0; outerRadius := Num 10;
                            startAngle := rad (start a); endAngle := rad (end_ a) |})]
       /\ start a + end_ a == 0 /\ end_ a - start a == 360.
Proof.
  intros Hcalm angles.
  destruct (meanDirectional_drawRose_body_run data center svg Hcalm)
    as (Hok & Hsl & Hlen & Hang).
  repeat (split; [assumption|]).
  exists {| start := -360 # 2; end_ := 360 # 2 |}. split; [|split; reflexivity].
  unfold meanDirectional.drawRose, orDefault.
  destruct (meanDirectional_drawRose_body_run northTen center svg eq_refl)
    as (_ & Hsl' & _).
  rewrite Hsl'. reflexivity.
Qed.

Lemma meanDirectional_one_slice_per_direction_witness :
  noCalmKey meanDirectional.defaultData = true
  /\ snd (meanDirectional.drawRose_body meanDirectional.defaultData defaultCenter [])
     = Normal tt.
Proof.
  split; [reflexivity|].
  exact (proj1 (meanDirectional_one_slice_per_direction
                  meanDirectional.defaultData defaultCenter [] eq_refl)).
Defined.

(* ================================================================== *)
(** ** The telescope rose                                               *)
(* ================================================================== *)

Lemma drawRadiiCircles_run (domain : Z) (center : point) (svg : surface) :
  bomStyle.drawRadiiCircles domain center svg
  = (svg ++ fst (bomStyle.drawRadiiCircles domain center []), Normal tt).
Proof.
  unfold bomStyle.drawRadiiCircles. apply forEach_framed. reflexivity.
Qed.

Lemma drawRadiiCircles_bars (domain : Z) (center : point) :
  bars (fst (bomStyle.drawRadiiCircles domain center [])) = [].
Proof.
  unfold bomStyle.drawRadiiCircles. rewrite forEach_total by reflexivity.
  cbn [fst app]. apply collect_flat_map_nil. reflexivity.
Qed.

Section TelescopeArm.
Variables (dir : string) (center : point).

Lemma drawRose_keys_styled bins :
  forall offset svg,
    binsStyled bomStyle.config bins = true ->
    exists new,
      bomStyle.drawRose_keys dir bins offset center svg
      = (svg ++ new, Normal (sumBins bins offset))
      /\ bars new = stackedBars dir offset center bins.
Proof.
  induction bins as [|[key freq] rest IH]; intros offset svg Hst.
  - exists []. simpl. now rewrite app_nil_r.
  - unfold binsStyled in Hst. cbn [forallb fst] in Hst.
    apply andb_prop in Hst. destruct Hst as [Hkey Hrest].
    unfold hasStyle in Hkey.
    cbn [bomStyle.drawRose_keys sumBins stackedBars].
    destruct (get key bomStyle.config) as [st|] eqn:Hcfg; [|discriminate].
    unfold bind, append.
    match goal with
    | |- context [bomStyle.drawRose_keys dir rest ?o center ?s] =>
        destruct (IH o s Hrest) as (new & Hnew & Hbars)
    end.
    eexists (_ :: new). rewrite Hnew. split.
    + now rewrite <- app_assoc.
    + unfold bars in *. cbn [collect]. rewrite <- Hbars. reflexivity.
Qed.
End TelescopeArm.

Lemma bomStyle_drawRose_dirs_styled (center : point) (offset : jsnum) todo :
  forall svg,
    allStyled bomStyle.config todo = true ->
    exists new,
      bomStyle.drawRose_dirs todo offset center svg = (svg ++ new, Normal tt)
      /\ bars new
         = flat_map (fun de => if isCalm (fst de) then []
                               else stackedBars (fst de) offset center (forIn (snd de)))
                    todo.
Proof.
  induction todo as [|[dir e] rest IH]; intros svg Hst.
  - exists []. simpl. now rewrite app_nil_r.
  - unfold allStyled in Hst. cbn [forallb fst snd] in Hst.
    apply andb_prop in Hst. destruct Hst as [Hdir Hrest].
    cbn [bomStyle.drawRose_dirs flat_map fst snd].
    destruct (isCalm dir) eqn:Hcalm; cbn [negb orb] in *.
    + destruct (IH svg Hrest) as (new & Hnew & Hbars).
      exists new. unfold bind, ret. now rewrite Hnew.
    + destruct (drawRose_keys_styled dir center (forIn e) offset svg Hdir)
        as (new1 & Hnew1 & Hbars1).
      destruct (IH (svg ++ new1) Hrest) as (new2 & Hnew2 & Hbars2).
      exists (new1 ++ new2). unfold bind, ret. rewrite Hnew1, Hnew2. split.
      * now rewrite <- app_assoc.
      * unfold bars in *. now rewrite collect_app, Hbars1, Hbars2.
Qed.

Lemma drawCalmCircle_run (calmPercent : jsnum) (center : point) (svg : surface) :
  bomStyle.drawCalmCircle calmPercent center svg
  = (svg ++ fst (bomStyle.drawCalmCircle calmPercent center []), Normal tt).
Proof. reflexivity. Qed.

Lemma bomStyle_drawRose_body_styled (data : dataset) (center : point) (svg : surface) :
  allStyled bomStyle.config data = true ->
  snd (bomStyle.drawRose_body data center svg) = Normal tt
  /\ bars (fst (bomStyle.drawRose_body data center svg))
     = bars svg ++ telescopeArms data center.
Proof.
  intros Hst. unfold bomStyle.drawRose_body, bind.
  rewrite drawRadiiCircles_run, drawCalmCircle_run.
  match goal with
  | |- context [bomStyle.drawRose_dirs data ?o center ?s] =>
      destruct (bomStyle_drawRose_dirs_styled center o data s Hst)
        as (new & Hnew & Hbars)
  end.
  rewrite Hnew. cbn [fst snd]. split; [reflexivity|].
  unfold bars in *. rewrite !collect_app, Hbars.
  fold (bars (fst (bomStyle.drawRadiiCircles (domain data) center []))).
  rewrite drawRadiiCircles_bars, app_nil_r.
  change (collect barOf (fst (bomStyle.drawCalmCircle (getScalar "calm" data) center [])))
    with (@nil bar).
  rewrite app_nil_r. reflexivity.
Qed.

(** C6: in the telescope rose every direction starts at center.y + calm and
    every bin, in the data's order, gives one rectangle with
    x = center.x - binWidth/2, y = the running offset, the bin's configured
    width and height = its frequency, where the next bin starts; with
    calm = 8 and four bins of 10 for N the rectangles sit at center.y + 8
    and 10, 20 and 30 further, each 10 high: at 88, 98, 108 and 118 for the
    default center.  The dataset has styled bins and a domain whose
    reference circles can all be drawn. *)
Theorem bomStyle_drawRose_stacks_bars (data : dataset) (center : point) (svg : surface) :
  allStyled bomStyle.config data = true ->
  loopEnds (domain data) = true ->
  snd (bomStyle.drawRose_body data center svg) = Normal tt
  /\ bars (fst (bomStyle.drawRose_body data center svg))
     = bars svg ++ telescopeArms data center
  /\ map barSpan (bars (fst (bomStyle.drawRose (Some northTens) (Some center) None)))
     = [ (Num (y center + 8), Num 10); (Num (y center + 8 + 10), Num 10);
         (Num (y center + 8 + 10 + 10), Num 10);
         (Num (y center + 8 + 10 + 10 + 10), Num 10) ]
  /\ map barSpan (bars (fst (bomStyle.drawRose (Some northTens) None None)))
     = [ (Num 88, Num 10); (Num 98, Num 10); (Num 108, Num 10); (Num 118, Num 10) ].
Proof.
  intros Hst _.
  destruct (bomStyle_drawRose_body_styled data center svg Hst) as [Hok Hbars].
  split; [exact Hok|]. split; [exact Hbars|].
  split; [|vm_compute; reflexivity].
  unfold bomStyle.drawRose, orDefault.
  destruct (bomStyle_drawRose_body_styled northTens center newSvg eq_refl) as [_ Hb].
  rewrite Hb. reflexivity.
Qed.

Lemma bomStyle_drawRose_stacks_bars_witness :
  allStyled bomStyle.config bomStyle.defaultData = true
  /\ loopEnds (domain bomStyle.defaultData) = true
  /\ snd (bomStyle.drawRose_body bomStyle.defaultData defaultCenter []) = Normal tt.
Proof.
  split; [reflexivity|]. split; [reflexivity|].
  exact (proj1 (bomStyle_drawRose_stacks_bars bomStyle.defaultData defaultCenter []
                  eq_refl eq_refl)).
Defined.

(* ================================================================== *)
(** ** directionWithMinimumLength                                       *)
(* ================================================================== *)

(** C10, as stated, fails.  With calm = -5 and one arm of total 5 the
    function returns ["calm"]; without a ["calm"] key, and the global [calm]
    not yet created, it throws; with ["calm"] last, the arms are measured
    with the [calm] an earlier call left behind. *)
Lemma directionWithMinimumLength_not_always_empty :
  (armTotalsNonNegative negativeCalm = true
   /\ fst (directionWithMinimumLength None negativeCalm) = Normal "calm"%string)
  /\ (armTotalsNonNegative noCalm = true
      /\ fst (directionWithMinimumLength None noCalm) = Throw ReferenceError)
  /\ (armTotalsNonNegative calmLast = true
      /\ fst (directionWithMinimumLength (Some (Num (-100))) calmLast)
         = Normal "S"%string).
Proof.
  repeat apply conj; vm_compute; reflexivity.
Qed.

Lemma Qltb_false_of_le (p q : Q) : q <= p -> Qltb p q = false.
Proof.
  intros H. unfold Qltb. apply negb_false_iff, Qle_bool_iff. exact H.
Qed.

Lemma directionWithMinimumLength_loop_nonneg (c : Q) (dirs : dataset) :
  forall len,
    noCalmKey dirs = true ->
    forallb (armNonNegative (Num c)) dirs = true ->
    directionWithMinimumLength_loop dirs (0, ""%string) len (Some (Num c))
    = (Normal ""%string, Some (Num c)).
Proof.
  induction dirs as [|[dir e] rest IH]; intros len Hcalm Hnn; [reflexivity|].
  unfold noCalmKey in Hcalm. cbn [keys map fst forallb] in Hcalm.
  apply andb_prop in Hcalm. destruct Hcalm as [Hdir Hrest].
  apply negb_true_iff in Hdir.
  cbn [forallb] in Hnn. apply andb_prop in Hnn. destruct Hnn as [Harm Hnn].
  cbn [directionWithMinimumLength_loop]. rewrite Hdir.
  unfold armNonNegative in Harm. cbn [snd] in Harm.
  destruct (add (sumBins (forIn e) (Num 0)) (Num c)) as [| |q] eqn:Hq;
    try discriminate.
  unfold lt. cbn [fst].
  rewrite Qltb_false_of_le by (now apply Qle_bool_iff).
  apply IH; assumption.
Qed.

Lemma armTotals_nonNegative_with (data : dataset) (c : Q) :
  calmOrZero data = Num c ->
  forall l : dataset,
    forallb (fun t => match t with Num q => Qle_bool 0 q | _ => false end)
            (map (fun de => armTotal data (snd de)) l)
    = forallb (armNonNegative (Num c)) l.
Proof.
  intros Hc. induction l as [|de rest IH]; [reflexivity|].
  cbn [map forallb]. rewrite IH. unfold armNonNegative, armTotal. now rewrite Hc.
Qed.

Lemma armTotals_calm_first (c : Q) (dirs : dataset) :
  noCalmKey dirs = true ->
  armTotalsNonNegative (("calm"%string, Scalar (Num c)) :: dirs)
  = forallb (armNonNegative (Num c)) dirs.
Proof.
  intros Hcalm. unfold armTotalsNonNegative, armTotals.
  assert (Hfilter : filter (fun de : string * entry => negb (isCalm (fst de)))
                           (("calm"%string, Scalar (Num c)) :: dirs) = dirs).
  { change (filter (fun de : string * entry => negb (isCalm (fst de))) dirs = dirs).
    apply forallb_filter_id. apply forallb_forall. intros de Hin.
    now rewrite (noCalmKey_In dirs de Hcalm Hin). }
  rewrite Hfilter. now apply armTotals_nonNegative_with.
Qed.

(** C10 (amended): when ["calm"] is the first key, its value is a number
    that is not negative, and no arm total is negative,
    [directionWithMinimumLength] returns the empty string, whatever global
    [calm] an earlier call left; the minimum starts at 0 and only a smaller
    value replaces it. *)
Theorem directionWithMinimumLength_empty_on_nonnegative
        (globalCalm : option jsnum) (c : Q) (dirs : dataset) :
  0 <= c ->
  noCalmKey dirs = true ->
  armTotalsNonNegative (("calm"%string, Scalar (Num c)) :: dirs) = true ->
  directionWithMinimumLength globalCalm (("calm"%string, Scalar (Num c)) :: dirs)
  = (Normal ""%string, Some (Num c)).
Proof.
  intros Hc Hcalm Hnn. rewrite armTotals_calm_first in Hnn by exact Hcalm.
  unfold directionWithMinimumLength. cbn [directionWithMinimumLength_loop].
  change (isCalm "calm") with true. cbn iota.
  unfold lt, add, toScalar. cbn [fst].
  rewrite Qltb_false_of_le by (rewrite Qplus_0_l; exact Hc).
  now apply directionWithMinimumLength_loop_nonneg.
Qed.

Lemma directionWithMinimumLength_empty_on_nonnegative_witness :
  0 <= 8
  /\ noCalmKey (tl defaultData) = true
  /\ armTotalsNonNegative defaultData = true
  /\ directionWithMinimumLength None defaultData = (Normal ""%string, Some (Num 8)).
Proof.
  assert (H8 : 0 <= 8) by discriminate.
  split; [exact H8|]. split; [reflexivity|]. split; [reflexivity|].
  exact (directionWithMinimumLength_empty_on_nonnegative None 8 (tl defaultData)
           H8 eq_refl eq_refl).
Defined.

(* ================================================================== *)
(** ** domain                                                           *)
(* ================================================================== *)

Lemma Qltb_true_lt (p q : Q) : Qltb p q = true -> p < q.
Proof.
  unfold Qltb. intros H. apply negb_true_iff in H.
  apply Qnot_le_lt. intros Hle. apply Qle_bool_iff in Hle. congruence.
Qed.

Lemma Qltb_false_le (p q : Q) : Qltb p q = false -> q <= p.
Proof.
  unfold Qltb. intros H. apply negb_false_iff in H. now apply Qle_bool_iff.
Qed.

Lemma gt_ge (val : jsnum) (max : Q) : max <= gt val max.
Proof.
  unfold gt. destruct val as [| |v]; try apply Qle_refl.
  destruct (Qltb max v) eqn:Hlt; [|apply Qle_refl].
  apply Qlt_le_weak. now apply Qltb_true_lt.
Qed.

Lemma maxLength_loop_ge (data : dataset) :
  forall max calm len, max <= maxLength_loop data max calm len.
Proof.
  induction data as [|[dir e] rest IH]; simpl; intros max calm len; [apply Qle_refl|].
  destruct (isCalm dir); (eapply Qle_trans; [apply gt_ge|apply IH]).
Qed.


(** With the calm value fixed, [maxLength]'s loop is the running maximum of
    the arm totals. *)
Lemma maxLength_loop_fixed_calm (calm : jsnum) (dirs : dataset) :
  forall max len,
    noCalmKey dirs = true ->
    maxLength_loop dirs max calm len
    = fold_left (fun m t => gt t m)
                (map (fun de => add (sumBins (forIn (snd de)) (Num 0)) calm) dirs) max.
Proof.
  induction dirs as [|[dir e] rest IH]; intros max len Hcalm; [reflexivity|].
  unfold noCalmKey in Hcalm. cbn [keys map fst forallb] in Hcalm.
  apply andb_prop in Hcalm. destruct Hcalm as [Hdir Hrest].
  apply negb_true_iff in Hdir.
  cbn [maxLength_loop map fold_left snd]. rewrite Hdir. now apply IH.
Qed.

Lemma filter_noCalmKey (dirs : dataset) :
  noCalmKey dirs = true ->
  filter (fun de : string * entry => negb (isCalm (fst de))) dirs = dirs.
Proof.
  intros Hcalm. apply forallb_filter_id. apply forallb_forall. intros de Hin.
  now rewrite (noCalmKey_In dirs de Hcalm Hin).
Qed.

Lemma get_noCalmKey (dirs : dataset) :
  noCalmKey dirs = true -> get "calm"%string dirs = None.
Proof.
  induction dirs as [|[dir e] rest IH]; intros Hcalm; [reflexivity|].
  unfold noCalmKey in Hcalm. cbn [keys map fst forallb] in Hcalm.
  apply andb_prop in Hcalm. destruct Hcalm as [Hdir Hrest].
  apply negb_true_iff in Hdir. unfold isCalm in Hdir.
  cbn [get]. rewrite String.eqb_sym, Hdir. now apply IH.
Qed.

(** Without a ["calm"] key [domain] is the domain of the specification. *)
Lemma domain_without_calm (data : dataset) :
  noCalmKey data = true -> domain data = specDomain data.
Proof.
  intros Hcalm. unfold domain, specDomain, maxLength, armTotals, armTotal, calmOrZero.
  rewrite (maxLength_loop_fixed_calm (Num 0) data 0 (Num 0) Hcalm).
  now rewrite filter_noCalmKey, get_noCalmKey.
Qed.

Lemma gt_Qeq (t : jsnum) (m m' : Q) : m == m' -> gt t m == gt t m'.
Proof.
  intros Hm. unfold gt, Qltb. destruct t as [| |v]; trivial.
  rewrite (Qleb_comp v v (Qeq_refl v) m m' Hm).
  destruct (Qle_bool v m'); simpl; [exact Hm|reflexivity].
Qed.

Lemma fold_gt_Qeq (l : list jsnum) :
  forall m m', m == m' ->
               fold_left (fun m t => gt t m) l m == fold_left (fun m t => gt t m) l m'.
Proof.
  induction l as [|t l IH]; simpl; intros m m' Hm; [exact Hm|].
  apply IH, gt_Qeq, Hm.
Qed.

Lemma gt_absorb (q m : Q) : m <= q -> gt (Num q) m == q.
Proof.
  intros Hle. unfold gt. destruct (Qltb m q) eqn:Hlt; [reflexivity|].
  apply Qltb_false_le in Hlt. now apply Qle_antisym.
Qed.

(** With ["calm"] as first key, a calm that is not negative and at least
    one direction, none with a negative bin sum, [domain] is the domain of
    the specification. *)
Lemma domain_calm_first (c : Q) (dirs : dataset) :
  0 <= c -> dirs <> [] -> noCalmKey dirs = true ->
  forallb binSumNonNegative dirs = true ->
  domain (("calm"%string, Scalar (Num c)) :: dirs)
  = specDomain (("calm"%string, Scalar (Num c)) :: dirs).
Proof.
  intros Hc Hne Hcalm Hsum.
  unfold domain, specDomain, maxLength, armTotals, armTotal, calmOrZero.
  cbn [maxLength_loop get]. change (isCalm "calm") with true.
  change (String.eqb "calm" "calm") with true. cbn iota.
  change (filter (fun de : string * entry => negb (isCalm (fst de)))
                 (("calm"%string, Scalar (Num c)) :: dirs))
    with (filter (fun de : string * entry => negb (isCalm (fst de))) dirs).
  rewrite filter_noCalmKey by exact Hcalm.
  rewrite (maxLength_loop_fixed_calm (toScalar (Scalar (Num c))) dirs _ _ Hcalm).
  cbn [toScalar].
  destruct dirs as [|de rest]; [congruence|].
  cbn [forallb] in Hsum. apply andb_prop in Hsum. destruct Hsum as [Hde _].
  unfold binSumNonNegative in Hde.
  cbn [map fold_left].
  destruct (sumBins (forIn (snd de)) (Num 0)) as [| |s] eqn:Hs; try discriminate.
  apply Qle_bool_iff in Hde. cbn [add].
  assert (Heq : fold_left (fun m t => gt t m)
                  (map (fun de0 : string * entry =>
                          add (sumBins (forIn (snd de0)) (Num 0)) (Num c)) rest)
                  (gt (Num (s + c)) (gt (Num (0 + c)) 0))
                == fold_left (fun m t => gt t m)
                     (map (fun de0 : string * entry =>
                             add (sumBins (forIn (snd de0)) (Num 0)) (Num c)) rest)
                     (gt (Num (s + c)) 0)).
  { apply fold_gt_Qeq. rewrite !gt_absorb; try reflexivity; try lra.
    rewrite gt_absorb; lra. }
  now rewrite Heq.
Qed.


(* ================================================================== *)
(** ** More on directions and angles                                    *)
(* ================================================================== *)

(** X1: [numberOfDirectionsInData] counts every first-level key, the
    ["calm"] key included: it exceeds the number of directions that
    [getDirections] returns by the number of ["calm"] keys; and
    [getDirections] returns exactly the keys other than ["calm"]. *)
Theorem numberOfDirectionsInData_counts_calm (data : dataset) :
  numberOfDirectionsInData data
  = (List.length (getDirections data) + calmKeys data)%nat
  /\ (forall d, In d (getDirections data)
                <-> In d (keys data) /\ d <> "calm"%string).
Proof.
  split.
  - unfold numberOfDirectionsInData, getDirections, calmKeys, keys.
    rewrite <- (length_map fst data).
    induction (map fst data) as [|k ks IH]; [reflexivity|].
    cbn [filter]. destruct (isCalm k); cbn [negb List.length]; lia.
  - intros d. unfold getDirections. rewrite filter_In. unfold isCalm.
    split; intros [Hin Hd]; (split; [exact Hin|]).
    + intros ->. discriminate.
    + apply negb_true_iff. now apply String.eqb_neq.
Qed.

(** X3: for distinct labels the slices of [getAngles] do not overlap:
    every slice, the last one included, ends after it starts, and a slice
    ends no later than any slice further down the list starts. *)
Theorem getAngles_slices_do_not_overlap (directions : list string) :
  NoDup directions ->
  (forall i d a,
      nth_error directions i = Some d -> get d (getAngles directions) = Some a ->
      start a < end_ a)
  /\ (forall i j di dj a b,
        (i < j)%nat ->
        nth_error directions i = Some di -> nth_error directions j = Some dj ->
        get di (getAngles directions) = Some a ->
        get dj (getAngles directions) = Some b ->
        end_ a <= start b).
Proof.
  intros Hnd.
  set (N := Qnat (List.length directions)).
  assert (Hpos : forall i d, nth_error directions i = Some d ->
                             0 < degreesInCircle / N).
  { intros i d Hi.
    assert (HN : 0 < N).
    { apply Qnat_pos. destruct directions; [destruct i; discriminate|discriminate]. }
    apply Qlt_shift_div_l; [exact HN|]. rewrite Qmult_0_l. reflexivity. }
  split.
  - intros i d a Hi Ha. pose proof (Hpos i d Hi) as Hw.
    rewrite (getAngles_get directions i d Hnd Hi) in Ha. injection Ha as <-.
    fold N. cbn [start end_ sliceAt].
    rewrite <- (Qplus_0_r (degreesInCircle / N * factorAt (-1 # 2) i)) at 1.
    setoid_replace (degreesInCircle / N * (factorAt (-1 # 2) i + 1))
      with (degreesInCircle / N * factorAt (-1 # 2) i + degreesInCircle / N) by ring.
    apply Qplus_lt_r. exact Hw.
  - intros i j di dj a b Hij Hi Hj Ha Hb. pose proof (Hpos i di Hi) as Hw.
    rewrite (getAngles_get directions i di Hnd Hi) in Ha. injection Ha as <-.
    rewrite (getAngles_get directions j dj Hnd Hj) in Hb. injection Hb as <-.
    fold N. cbn [start end_ sliceAt]. rewrite !factorAt_Qnat.
    apply Qmult_le_l; [exact Hw|].
    assert (Hle : Qnat (S i) <= Qnat j) by (apply Qnat_le; lia).
    rewrite Qnat_S in Hle. lra.
Qed.

Lemma getAngles_slices_do_not_overlap_witness :
  NoDup compass8
  /\ exists a b,
       get "W"%string (getAngles compass8) = Some a
       /\ get "NW"%string (getAngles compass8) = Some b
       /\ start b < end_ b /\ end_ a <= start b.
Proof.
  assert (Hnd : NoDup compass8).
  { unfold compass8. repeat constructor; simpl; intuition discriminate. }
  split; [exact Hnd|].
  destruct (getAngles_slices_do_not_overlap compass8 Hnd) as [Hwidth Horder].
  eexists. eexists. split; [reflexivity|]. split; [reflexivity|]. split.
  - apply (Hwidth 7%nat "NW"%string); reflexivity.
  - apply (Horder 6%nat 7%nat "W"%string "NW"%string); [lia|reflexivity..].
Defined.

Lemma fold_gt_ge (l : list jsnum) :
  forall m, m <= fold_left (fun m t => gt t m) l m.
Proof.
  induction l as [|t l IH]; cbn [fold_left]; intros m; [apply Qle_refl|].
  eapply Qle_trans; [apply gt_ge|apply IH].
Qed.

Lemma fold_gt_covers (l : list jsnum) :
  forall m q, In (Num q) l -> q <= fold_left (fun m t => gt t m) l m.
Proof.
  induction l as [|t l IH]; cbn [fold_left]; intros m q Hin; [destruct Hin|].
  destruct Hin as [-> |Hin]; [|now apply IH].
  eapply Qle_trans; [|apply fold_gt_ge].
  unfold gt. destruct (Qltb m q) eqn:Hlt; [apply Qle_refl|now apply Qltb_false_le].
Qed.

Lemma maxLength_calm_first_covers (data : dataset) :
  calmFirstOrAbsent data = true ->
  forall de q, In de data -> isCalm (fst de) = false ->
               armLength (calmOrZero data) (snd de) = Num q -> q <= maxLength data.
Proof.
  unfold calmFirstOrAbsent. intros Hcalm de q Hin Hdir Hq.
  destruct data as [|[dir e] dirs]; [destruct Hin|]. cbn [tl] in Hcalm.
  unfold maxLength. destruct (isCalm dir) eqn:Hhead.
  - destruct Hin as [<-|Hin]; [cbn [fst] in Hdir; congruence|].
    cbn [maxLength_loop]. rewrite Hhead.
    rewrite (maxLength_loop_fixed_calm (toScalar e) dirs _ _ Hcalm).
    apply fold_gt_covers. unfold armLength, calmOrZero in Hq. cbn [get] in Hq.
    unfold isCalm in Hhead. rewrite String.eqb_sym in Hhead. rewrite Hhead in Hq.
    rewrite <- Hq.
    apply (in_map (fun de0 : string * entry =>
                     add (sumBins (forIn (snd de0)) (Num 0)) (toScalar e)) dirs de Hin).
  - assert (Hall : noCalmKey ((dir, e) :: dirs) = true).
    { unfold noCalmKey in *. cbn [keys map fst forallb]. now rewrite Hhead. }
    rewrite (maxLength_loop_fixed_calm (Num 0) _ 0 (Num 0) Hall).
    apply fold_gt_covers. unfold armLength, calmOrZero in Hq.
    rewrite (get_noCalmKey _ Hall) in Hq. rewrite <- Hq.
    apply (in_map (fun de0 : string * entry =>
                     add (sumBins (forIn (snd de0)) (Num 0)) (Num 0)) _ de Hin).
Qed.

(** X5: when ["calm"] is the first key or is absent, [maxLength] is at
    least [len + calm] of every direction, the sum as the loop computes
    it: the result is no smaller than any arm the loop measured.  (With
    ["calm"] after a direction it can be.) *)
Theorem maxLength_covers_every_arm (data : dataset) (de : string * entry) (q : Q) :
  calmFirstOrAbsent data = true ->
  In de data -> isCalm (fst de) = false ->
  armLength (calmOrZero data) (snd de) = Num q ->
  q <= maxLength data.
Proof.
  intros Hcalm Hin Hdir Hq. eapply maxLength_calm_first_covers; eauto.
Qed.

Lemma maxLength_covers_every_arm_witness :
  calmFirstOrAbsent defaultData = true /\ 78 <= maxLength defaultData.
Proof.
  split; [reflexivity|].
  apply (maxLength_covers_every_arm defaultData ("S"%string, b4 20 30 10 10) 78);
    [reflexivity| |reflexivity|reflexivity].
  do 9 right. left. reflexivity.
Defined.

(* ================================================================== *)
(** ** The reference circles                                         *)
(* ================================================================== *)







(* ================================================================== *)
(** ** The roses on a container that is not empty                       *)
(* ================================================================== *)

Lemma framed_ret {A : Type} (a : A) : framed (ret a).
Proof. intros svg. unfold ret. cbn. now rewrite app_nil_r. Qed.

Lemma framed_throw {A : Type} (e : exn) : framed (@throw A e).
Proof. intros svg. unfold throw. cbn. now rewrite app_nil_r. Qed.

Lemma framed_append (e : element) : framed (append e).
Proof. intros svg. reflexivity. Qed.

Lemma framed_bind {A B : Type} (m : render A) (k : A -> render B) :
  framed m -> (forall a, framed (k a)) -> framed (bind m k).
Proof.
  intros Hm Hk svg. unfold bind. rewrite (Hm svg).
  destruct (m []) as [new [a|e]]; cbn [fst snd].
  - rewrite (Hk a (svg ++ new)), (Hk a new). cbn [fst snd].
    now rewrite app_assoc.
  - reflexivity.
Qed.

Lemma framed_forEach {A : Type} (l : list A) (body : A -> render unit) :
  (forall a, framed (body a)) -> framed (forEach l body).
Proof.
  intros Hbody. induction l as [|a l IH]; cbn [forEach].
  - apply framed_ret.
  - apply framed_bind; [apply Hbody|intros _; exact IH].
Qed.

#[local] Hint Resolve framed_ret framed_throw framed_append framed_bind
  framed_forEach : render.

Lemma framed_drawChunk dir bin freq offset center angles :
  framed (drawChunk dir bin freq offset center angles).
Proof.
  unfold drawChunk. destruct (get dir angles); auto with render.
  destruct (get bin config); auto with render.
  destruct (inherited bin); auto with render.
Qed.

Lemma framed_drawRose_bins dir center angles bins :
  forall offset, framed (drawRose_bins dir bins offset center angles).
Proof.
  induction bins as [|[bin freq] rest IH]; cbn [drawRose_bins]; intros offset;
    auto using framed_drawChunk with render.
Qed.

Lemma framed_drawRose_dirs data center angles todo :
  framed (drawRose_dirs data todo center angles).
Proof.
  induction todo as [|[dir e] rest IH]; cbn [drawRose_dirs]; auto with render.
  apply framed_bind; [|auto].
  destruct (negb (isCalm dir)); auto using framed_drawRose_bins with render.
Qed.

Lemma framed_drawRose_keys dir center bins :
  forall offset, framed (bomStyle.drawRose_keys dir bins offset center).
Proof.
  induction bins as [|[key freq] rest IH]; cbn [bomStyle.drawRose_keys]; intros offset;
    auto with render.
  destruct (get key bomStyle.config); auto with render.
  destruct (inherited key); auto with render.
Qed.

Lemma framed_bomStyle_drawRose_dirs center offset todo :
  framed (bomStyle.drawRose_dirs todo offset center).
Proof.
  induction todo as [|[dir e] rest IH]; cbn [bomStyle.drawRose_dirs]; auto with render.
  apply framed_bind; [|auto].
  destruct (negb (isCalm dir)); auto using framed_drawRose_keys with render.
Qed.

Lemma framed_drawSpeedSlice center dir speed angles :
  framed (meanDirectional.drawSpeedSlice center dir speed angles).
Proof.
  unfold meanDirectional.drawSpeedSlice. destruct (get dir angles); auto with render.
Qed.

(** X8: what a rose draws does not depend on what the container already
    holds.  On any container each of the three roses leaves the old
    elements in place, appends after them exactly the elements it appends
    to an empty container, and completes or throws as it does there. *)
Theorem roses_append_the_same_on_any_container
        (data : dataset) (center : point) (svg : surface) :
  drawRose_body data center svg
  = (svg ++ fst (drawRose_body data center []), snd (drawRose_body data center []))
  /\ bomStyle.drawRose_body data center svg
     = (svg ++ fst (bomStyle.drawRose_body data center []),
        snd (bomStyle.drawRose_body data center []))
  /\ meanDirectional.drawRose_body data center svg
     = (svg ++ fst (meanDirectional.drawRose_body data center []),
        snd (meanDirectional.drawRose_body data center [])).
Proof.
  repeat apply conj.
  - revert svg. change (framed (drawRose_body data center)).
    unfold drawRose_body. apply framed_bind.
    + unfold drawFrequencyCircles. auto with render.
    + intros _. apply framed_drawRose_dirs.
  - revert svg. change (framed (bomStyle.drawRose_body data center)).
    unfold bomStyle.drawRose_body. apply framed_bind.
    + unfold bomStyle.drawRadiiCircles. auto with render.
    + intros _. apply framed_bind; [apply framed_append|].
      intros _. apply framed_bomStyle_drawRose_dirs.
  - revert svg. change (framed (meanDirectional.drawRose_body data center)).
    unfold meanDirectional.drawRose_body. apply framed_bind.
    + unfold meanDirectional.drawSpeedCircles. auto with render.
    + intros _. apply framed_forEach. intros [dir e]. apply framed_drawSpeedSlice.
Qed.

(* ================================================================== *)
(** ** When the telescope and mean-directional roses throw              *)
(* ================================================================== *)

Section TelescopeThrows.
Variables (center : point).

Lemma drawRose_keys_found dir bins :
  forall offset svg,
    binsFound bomStyle.config bins = true ->
    exists new,
      bomStyle.drawRose_keys dir bins offset center svg
      = (svg ++ new, Normal (sumBins bins offset))
      /\ collect barRotation new
         = map (fun _ => (dir, bomStyle.rotation dir center)) bins.
Proof.
  induction bins as [|[key freq] rest IH]; intros offset svg Hst.
  - exists []. cbn. now rewrite app_nil_r.
  - unfold binsFound in Hst. cbn [forallb fst] in Hst.
    apply andb_prop in Hst. destruct Hst as [Hkey Hrest].
    unfold found, hasStyle in Hkey.
    cbn [bomStyle.drawRose_keys sumBins map].
    destruct (get key bomStyle.config) as [st|] eqn:Hcfg.
    + unfold bind, append.
      match goal with
      | |- context [bomStyle.drawRose_keys dir rest ?o center ?s] =>
          destruct (IH o s Hrest) as (new & Hnew & Hrot)
      end.
      eexists (_ :: new). rewrite Hnew. split.
      * now rewrite <- app_assoc.
      * cbn [collect]. rewrite <- Hrot. reflexivity.
    + cbn [orb] in Hkey. rewrite Hkey. unfold bind, append.
      match goal with
      | |- context [bomStyle.drawRose_keys dir rest ?o center ?s] =>
          destruct (IH o s Hrest) as (new & Hnew & Hrot)
      end.
      eexists (_ :: new). rewrite Hnew. split.
      * now rewrite <- app_assoc.
      * cbn [collect]. rewrite <- Hrot. reflexivity.
Qed.

Lemma drawRose_keys_missing dir bins :
  forall offset svg,
    binsFound bomStyle.config bins = false ->
    snd (bomStyle.drawRose_keys dir bins offset center svg) = Throw TypeError
    /\ exists front,
         fst (bomStyle.drawRose_keys dir bins offset center svg) = front ++ [bareRect].
Proof.
  induction bins as [|[key freq] rest IH]; intros offset svg Hst; [discriminate|].
  unfold binsFound in Hst. cbn [forallb fst] in Hst. unfold found, hasStyle in Hst.
  cbn [bomStyle.drawRose_keys].
  destruct (get key bomStyle.config) as [st|].
  - unfold bind, append. apply IH. exact Hst.
  - cbn [orb] in Hst. destruct (inherited key).
    + unfold bind, append. apply IH. exact Hst.
    + unfold bind, append, throw. cbn [fst snd]. split; [reflexivity|].
      now exists svg.
Qed.

Lemma bomStyle_drawRose_dirs_found offset todo :
  forall svg,
    allFound bomStyle.config todo = true ->
    exists new,
      bomStyle.drawRose_dirs todo offset center svg = (svg ++ new, Normal tt)
      /\ collect barRotation new = flat_map (armRotations center) todo.
Proof.
  induction todo as [|[dir e] rest IH]; intros svg Hst.
  - exists []. cbn. now rewrite app_nil_r.
  - unfold allFound in Hst. cbn [forallb fst snd] in Hst.
    apply andb_prop in Hst. destruct Hst as [Hdir Hrest].
    cbn [bomStyle.drawRose_dirs flat_map]. unfold armRotations at 1. cbn [fst snd].
    destruct (isCalm dir) eqn:Hcalm; cbn [negb orb] in *.
    + destruct (IH svg Hrest) as (new & Hnew & Hrot).
      exists new. unfold bind, ret. now rewrite Hnew.
    + destruct (drawRose_keys_found dir (forIn e) offset svg Hdir)
        as (new1 & Hnew1 & Hrot1).
      destruct (IH (svg ++ new1) Hrest) as (new2 & Hnew2 & Hrot2).
      exists (new1 ++ new2). unfold bind, ret. rewrite Hnew1, Hnew2. split.
      * now rewrite <- app_assoc.
      * now rewrite collect_app, Hrot1, Hrot2.
Qed.

Lemma bomStyle_drawRose_dirs_missing offset todo :
  forall svg,
    allFound bomStyle.config todo = false ->
    snd (bomStyle.drawRose_dirs todo offset center svg) = Throw TypeError
    /\ exists front,
         fst (bomStyle.drawRose_dirs todo offset center svg) = front ++ [bareRect].
Proof.
  induction todo as [|[dir e] rest IH]; intros svg Hst; [discriminate|].
  unfold allFound in Hst. cbn [forallb fst snd] in Hst.
  cbn [bomStyle.drawRose_dirs].
  destruct (isCalm dir) eqn:Hcalm; cbn [negb orb] in *.
  - unfold bind, ret. apply IH. exact Hst.
  - destruct (binsFound bomStyle.config (forIn e)) eqn:Hdir.
    + destruct (drawRose_keys_found dir (forIn e) offset svg Hdir)
        as (new & Hnew & _).
      unfold bind, ret. rewrite Hnew. apply IH. exact Hst.
    + destruct (drawRose_keys_missing dir (forIn e) offset svg Hdir)
        as (Hthrow & front & Hfront).
      unfold bind.
      destruct (bomStyle.drawRose_keys dir (forIn e) offset center svg)
        as [svg' [o|ex]]; cbn [fst snd] in *; [discriminate|].
      injection Hthrow as ->. split; [reflexivity|]. now exists front.
Qed.
End TelescopeThrows.

(** X9: on a dataset whose reference circles can all be drawn, the
    telescope rose completes exactly when [bomStyle.config[key]] is not
    [undefined] for any bin (the bin has an entry, or is named like an
    inherited member), whatever the frequencies are; otherwise it throws a
    TypeError, and the last element on the container is then a rectangle
    without any attribute. *)
Theorem bomStyle_drawRose_outcome (data : dataset) (center : point) (svg : surface) :
  loopEnds (domain data) = true ->
  if allFound bomStyle.config data
  then snd (bomStyle.drawRose_body data center svg) = Normal tt
  else snd (bomStyle.drawRose_body data center svg) = Throw TypeError
       /\ exists front,
            fst (bomStyle.drawRose_body data center svg) = front ++ [bareRect].
Proof.
  intros _. destruct (allFound bomStyle.config data) eqn:Hst.
  - unfold bomStyle.drawRose_body, bind.
    rewrite drawRadiiCircles_run, drawCalmCircle_run.
    match goal with
    | |- context [bomStyle.drawRose_dirs data ?o center ?s] =>
        destruct (bomStyle_drawRose_dirs_found center o data s Hst) as (new & Hnew & _)
    end.
    now rewrite Hnew.
  - unfold bomStyle.drawRose_body, bind.
    rewrite drawRadiiCircles_run, drawCalmCircle_run.
    now apply bomStyle_drawRose_dirs_missing.
Qed.

Lemma bomStyle_drawRose_outcome_witness :
  loopEnds (domain unknownBin) = true
  /\ allFound bomStyle.config unknownBin = false
  /\ snd (bomStyle.drawRose_body unknownBin defaultCenter []) = Throw TypeError.
Proof.
  split; [reflexivity|]. split; [reflexivity|].
  pose proof (bomStyle_drawRose_outcome unknownBin defaultCenter [] eq_refl) as H.
  change (allFound bomStyle.config unknownBin) with false in H.
  exact (proj1 H).
Defined.

Lemma getAngles_no_calm (data : dataset) :
  get "calm"%string (getAngles (getDirections data)) = None.
Proof.
  destruct (get "calm"%string (getAngles (getDirections data))) eqn:Hget;
    [|reflexivity].
  exfalso.
  assert (Hin : In "calm"%string (getDirections data)).
  { destruct (in_dec string_dec "calm"%string (getDirections data)) as [Hin|Hout];
      [exact Hin|].
    unfold getAngles in Hget. rewrite getAngles_loop_get_other in Hget by exact Hout.
    discriminate. }
  unfold getDirections in Hin. apply filter_In in Hin. destruct Hin as [_ Hc].
  discriminate.
Qed.

Lemma drawSlices_outcome (center : point) (angles : object span) (todo : dataset) :
  get "calm"%string angles = None ->
  (forall de, In de todo -> isCalm (fst de) = false -> get (fst de) angles <> None) ->
  forall svg,
    exists new,
      drawSlices center angles todo svg
      = (svg ++ new, if noCalmKey todo then Normal tt else Throw TypeError)
      /\ slices new = flat_map (sliceFor angles) (beforeCalm todo).
Proof.
  intros Hcalm. unfold drawSlices.
  induction todo as [|[dir e] rest IH]; intros Hang svg.
  - exists []. cbn. now rewrite app_nil_r.
  - cbn [forEach beforeCalm]. unfold noCalmKey. cbn [keys map fst forallb].
    fold (keys rest). fold (noCalmKey rest).
    destruct (isCalm dir) eqn:Hdir; cbn [negb andb].
    + apply String.eqb_eq in Hdir. subst dir.
      exists []. unfold bind, meanDirectional.drawSpeedSlice. rewrite Hcalm.
      unfold throw. now rewrite app_nil_r.
    + assert (Hget : get dir angles <> None)
        by (apply (Hang (dir, e)); [now left|exact Hdir]).
      destruct (get dir angles) as [a|] eqn:Ha; [|congruence].
      destruct (drawSpeedSlice_run center dir (toScalar e) angles a svg Ha)
        as (elt & Hrun & Hslice & _).
      destruct (IH (fun de H => Hang de (or_intror H)) (svg ++ [elt]))
        as (new & Hnew & Hsl).
      exists (elt :: new). unfold bind. rewrite Hrun, Hnew.
      split; [now rewrite <- app_assoc|].
      unfold slices in *. cbn [collect flat_map]. rewrite Hslice, Hsl.
      unfold sliceFor at 2. cbn [fst snd]. rewrite Ha. reflexivity.
Qed.

(** X10: the mean-directional rose completes exactly when the data has no
    ["calm"] key.  With one it throws a TypeError at that key: the slices of
    the directions before it are on the container, one each, and none of
    the directions after it. *)
Theorem meanDirectional_drawRose_outcome
        (data : dataset) (center : point) (svg : surface) :
  snd (meanDirectional.drawRose_body data center svg)
  = (if noCalmKey data then Normal tt else Throw TypeError)
  /\ slices (fst (meanDirectional.drawRose_body data center svg))
     = slices svg
       ++ flat_map (sliceFor (getAngles (getDirections data))) (beforeCalm data).
Proof.
  destruct (drawSlices_outcome center (getAngles (getDirections data)) data
              (getAngles_no_calm data) (drawRose_angles_defined data)
              (svg ++ fst (meanDirectional.drawSpeedCircles center [])))
    as (new & Hnew & Hsl).
  assert (Hrun : meanDirectional.drawRose_body data center svg
                 = (svg ++ fst (meanDirectional.drawSpeedCircles center []) ++ new,
                    if noCalmKey data then Normal tt else Throw TypeError)).
  { unfold meanDirectional.drawRose_body, bind. rewrite drawSpeedCircles_run.
    fold (drawSlices center (getAngles (getDirections data)) data).
    rewrite Hnew. now rewrite <- app_assoc. }
  rewrite Hrun. cbn [fst snd]. split; [reflexivity|].
  unfold slices in *. rewrite !collect_app, Hsl.
  fold (slices (fst (meanDirectional.drawSpeedCircles center []))).
  now rewrite (proj2 (drawSpeedCircles_radii center)).
Qed.

(* ================================================================== *)
(** ** The roses of a dataset without calm                              *)
(* ================================================================== *)

Lemma stackedChunks_poisoned (dir : string) (bins : object jsnum) :
  forall o, o = Undefined \/ o = NaN ->
            Forall notNumericChunk (stackedChunks dir o bins).
Proof.
  induction bins as [|[bin f] rest IH]; intros o Ho; [constructor|].
  cbn [stackedChunks].
  assert (Hadd : add o f = NaN) by (destruct Ho as [-> | ->]; reflexivity).
  rewrite Hadd. constructor; [split; [exact Ho|reflexivity]|].
  apply IH. now right.
Qed.

Lemma frequencyArms_length (data : dataset) (calm : jsnum) :
  List.length (flat_map (fun de : string * entry =>
                           if isCalm (fst de) then []
                           else stackedChunks (fst de) calm (forIn (snd de))) data)
  = List.length (allBins data).
Proof.
  unfold allBins. induction data as [|de rest IH]; [reflexivity|].
  cbn [flat_map]. rewrite !length_app, IH.
  destruct (isCalm (fst de)); [reflexivity|]. now rewrite stackedChunks_length.
Qed.

(** X11: on a dataset without a ["calm"] key (with styled bins, and
    reference circles that can all be drawn) the frequency rose completes
    and draws one arc per bin, but not one radius is a number: every outer
    radius is NaN and every inner radius is [undefined] or NaN. *)
Theorem drawRose_without_calm_draws_no_number
        (data : dataset) (center : point) (svg : surface) :
  noCalmKey data = true -> allStyled config data = true ->
  loopEnds (domain data) = true ->
  snd (drawRose_body data center svg) = Normal tt
  /\ exists arms,
       chunks (fst (drawRose_body data center svg)) = chunks svg ++ arms
       /\ List.length arms = List.length (allBins data)
       /\ Forall notNumericChunk arms.
Proof.
  intros Hcalm Hst _.
  destruct (drawRose_body_styled data center svg Hst) as (arms & Hrun & Hch).
  rewrite Hrun. cbn [fst snd]. split; [reflexivity|].
  exists (frequencyArms data). split.
  { unfold chunks in *. rewrite !collect_app, Hch.
    fold (chunks (fst (drawFrequencyCircles (domain data) center []))).
    now rewrite drawFrequencyCircles_chunks. }
  split; [apply frequencyArms_length|].
  unfold frequencyArms, getScalar. rewrite (get_noCalmKey data Hcalm).
  apply Forall_forall. intros ch Hin. apply in_flat_map in Hin.
  destruct Hin as (de & _ & Hin).
  destruct (isCalm (fst de)); [destruct Hin|].
  revert ch Hin. apply Forall_forall. apply stackedChunks_poisoned. now left.
Qed.

Lemma drawRose_without_calm_draws_no_number_witness :
  noCalmKey noCalm = true /\ allStyled config noCalm = true
  /\ loopEnds (domain noCalm) = true
  /\ snd (drawRose_body noCalm defaultCenter []) = Normal tt.
Proof.
  split; [reflexivity|]. split; [reflexivity|]. split; [reflexivity|].
  exact (proj1 (drawRose_without_calm_draws_no_number noCalm defaultCenter []
                  eq_refl eq_refl eq_refl)).
Defined.

Lemma stackedBars_poisoned (dir : string) (center : point) (bins : object jsnum) :
  Forall (fun b => barY b = NaN) (stackedBars dir NaN center bins).
Proof.
  induction bins as [|[key f] rest IH]; [constructor|].
  cbn [stackedBars]. destruct (get key bomStyle.config); [|constructor].
  constructor; [reflexivity|exact IH].
Qed.

(** X12: on a dataset without a ["calm"] key (with styled bins, and
    reference circles that can all be drawn) the telescope rose completes,
    but center.y + undefined is NaN: every rectangle it draws has y = NaN. *)
Theorem bomStyle_drawRose_without_calm
        (data : dataset) (center : point) (svg : surface) :
  noCalmKey data = true -> allStyled bomStyle.config data = true ->
  loopEnds (domain data) = true ->
  snd (bomStyle.drawRose_body data center svg) = Normal tt
  /\ exists arms,
       bars (fst (bomStyle.drawRose_body data center svg)) = bars svg ++ arms
       /\ Forall (fun b => barY b = NaN) arms.
Proof.
  intros Hcalm Hst _.
  destruct (bomStyle_drawRose_body_styled data center svg Hst) as [Hok Hbars].
  split; [exact Hok|]. exists (telescopeArms data center). split; [exact Hbars|].
  unfold telescopeArms, getScalar. rewrite (get_noCalmKey data Hcalm).
  cbn [add]. apply Forall_forall. intros b Hin. apply in_flat_map in Hin.
  destruct Hin as (de & _ & Hin).
  destruct (isCalm (fst de)); [destruct Hin|].
  revert b Hin. apply Forall_forall. apply stackedBars_poisoned.
Qed.

Lemma bomStyle_drawRose_without_calm_witness :
  noCalmKey noCalm = true /\ allStyled bomStyle.config noCalm = true
  /\ loopEnds (domain noCalm) = true
  /\ snd (bomStyle.drawRose_body noCalm defaultCenter []) = Normal tt.
Proof.
  split; [reflexivity|]. split; [reflexivity|]. split; [reflexivity|].
  exact (proj1 (bomStyle_drawRose_without_calm noCalm defaultCenter []
                  eq_refl eq_refl eq_refl)).
Defined.

(* ================================================================== *)
(** ** The rotations of the telescope arms                              *)
(* ================================================================== *)

(** X13: the telescope rose knows the eight-point compass only.  Every bar
    of a direction is transformed by "rotate(" + rotations[dir] + ...), and
    [rotations[dir]] is an angle exactly for N, NE, E, SE, S, SW, W and NW:
    for any other direction (NNE, say) it is [undefined], or the member
    every object inherits under that name. *)
Theorem bomStyle_rotates_eight_points_only
        (data : dataset) (center : point) (svg : surface) :
  allFound bomStyle.config data = true ->
  loopEnds (domain data) = true ->
  collect barRotation (fst (bomStyle.drawRose_body data center svg))
  = collect barRotation svg ++ flat_map (armRotations center) data
  /\ forall dir,
       (exists deg,
           bomStyle.rotation dir center = ARotate (Num deg) (x center) (y center))
       <-> In dir compass8.
Proof.
  intros Hst _. split.
  - unfold bomStyle.drawRose_body, bind.
    rewrite drawRadiiCircles_run, drawCalmCircle_run.
    match goal with
    | |- context [bomStyle.drawRose_dirs data ?o center ?s] =>
        destruct (bomStyle_drawRose_dirs_found center o data s Hst)
          as (new & Hnew & Hrot)
    end.
    rewrite Hnew. cbn [fst]. rewrite !collect_app, Hrot.
    unfold bomStyle.drawRadiiCircles. rewrite forEach_total by reflexivity.
    cbn [fst app].
    rewrite (collect_flat_map_nil barRotation) by reflexivity.
    rewrite app_nil_r.
    change (collect barRotation
              (fst (bomStyle.drawCalmCircle (getScalar "calm" data) center [])))
      with (@nil (string * attr)).
    now rewrite app_nil_r.
  - intros dir. unfold bomStyle.rotation.
    change compass8 with (keys bomStyle.rotations).
    rewrite <- get_defined_iff.
    destruct (get dir bomStyle.rotations) as [deg|].
    + split; [congruence|]. intros _. now exists deg.
    + split; [|congruence]. intros [deg Hdeg].
      destruct (inherited dir); discriminate.
Qed.

Lemma bomStyle_rotates_eight_points_only_witness :
  allFound bomStyle.config defaultData = true
  /\ loopEnds (domain defaultData) = true
  /\ ((exists deg, bomStyle.rotation "NNE" defaultCenter
                   = ARotate (Num deg) (x defaultCenter) (y defaultCenter))
      <-> In "NNE"%string compass8).
Proof.
  split; [reflexivity|]. split; [reflexivity|].
  exact (proj2 (bomStyle_rotates_eight_points_only defaultData defaultCenter []
                  eq_refl eq_refl) "NNE"%string).
Defined.

(* ================================================================== *)
(** ** directionWithMinimumLength and its global                        *)
(* ================================================================== *)

Lemma directionWithMinimumLength_loop_defined (data : dataset) :
  forall st len g,
    exists s g',
      directionWithMinimumLength_loop data st len (Some g) = (Normal s, Some g').
Proof.
  induction data as [|[dir e] rest IH]; intros st len g.
  - exists (snd st), g. reflexivity.
  - cbn [directionWithMinimumLength_loop]. destruct (isCalm dir); apply IH.
Qed.

(** X14: [directionWithMinimumLength] reads a global [calm] that only its
    own assignment creates.  While that global does not exist, the call
    throws a ReferenceError exactly when the data is not empty and its
    first key is not ["calm"] (and the global still does not exist
    afterwards); once the global exists, or when ["calm"] comes first, the
    call returns a string. *)
Theorem directionWithMinimumLength_reference_error (data : dataset) :
  (forall g, exists s g',
       directionWithMinimumLength (Some g) data = (Normal s, Some g'))
  /\ match data with
     | [] => directionWithMinimumLength None data = (Normal ""%string, None)
     | (dir, _) :: _ =>
         if isCalm dir
         then exists s g', directionWithMinimumLength None data = (Normal s, Some g')
         else directionWithMinimumLength None data = (Throw ReferenceError, None)
     end.
Proof.
  split.
  - intros g. apply directionWithMinimumLength_loop_defined.
  - destruct data as [|[dir e] rest]; [reflexivity|].
    unfold directionWithMinimumLength. cbn [directionWithMinimumLength_loop].
    destruct (isCalm dir); [|reflexivity].
    apply directionWithMinimumLength_loop_defined.
Qed.

Lemma directionWithMinimumLength_loop_result (data : dataset) :
  forall st len g s g',
    directionWithMinimumLength_loop data st len g = (Normal s, g') ->
    (s = snd st \/ In s (keys data)) /\ g' = lastCalm g data.
Proof.
  induction data as [|[dir e] rest IH]; intros st len g s g' Hrun.
  - cbn in Hrun. injection Hrun as <- <-. split; [now left|reflexivity].
  - cbn [directionWithMinimumLength_loop] in Hrun. cbn [lastCalm keys map fst].
    destruct (if isCalm dir then Some (toScalar e) else g) as [c|] eqn:Hc;
      [|discriminate].
    apply IH in Hrun. destruct Hrun as [Hs Hg]. split; [|exact Hg].
    destruct Hs as [Hs|Hs]; [|right; now right].
    unfold lt in Hs.
    destruct (add (if isCalm dir then len else sumBins (forIn e) (Num 0)) c)
      as [| |v]; try (now left).
    destruct (Qltb v (fst st)); [right; now left|now left].
Qed.

(** X15: what [directionWithMinimumLength] returns is the empty string or
    one of the first-level keys of the data (["calm"] can be among them);
    and it leaves the global [calm] at the value of the last ["calm"] key
    of the data, or as it was when the data has none. *)
Theorem directionWithMinimumLength_returns_a_key
        (globalCalm : option jsnum) (data : dataset) (s : string) (g' : option jsnum) :
  directionWithMinimumLength globalCalm data = (Normal s, g') ->
  (s = ""%string \/ In s (keys data)) /\ g' = lastCalm globalCalm data.
Proof.
  intros Hrun. exact (directionWithMinimumLength_loop_result data _ _ _ _ _ Hrun).
Qed.

Lemma directionWithMinimumLength_returns_a_key_witness :
  directionWithMinimumLength None negativeCalm
  = (Normal "calm"%string, Some (Num (-5)))
  /\ In "calm"%string (keys negativeCalm).
Proof.
  split; [reflexivity|].
  destruct (directionWithMinimumLength_returns_a_key
              None negativeCalm "calm"%string (Some (Num (-5))) eq_refl)
    as [[Hs|Hs] _]; [discriminate|exact Hs].
Defined.

(* ================================================================== *)
(** ** More keys never lower the domain                                 *)
(* ================================================================== *)

Lemma maxLength_loop_app (data more : dataset) :
  forall max calm len,
    exists calm' len',
      maxLength_loop (data ++ more) max calm len
      = maxLength_loop more (maxLength_loop data max calm len) calm' len'.
Proof.
  induction data as [|[dir e] rest IH]; intros max calm len.
  - exists calm, len. reflexivity.
  - cbn [app maxLength_loop]. destruct (isCalm dir); apply IH.
Qed.

(** X16: keys added after the others never lower the result: [maxLength]
    and [domain] of a dataset extended by further keys (directions or
    ["calm"]) are at least those of the dataset. *)
Theorem domain_grows_with_more_keys (data more : dataset) :
  maxLength data <= maxLength (data ++ more)
  /\ (domain data <= domain (data ++ more))%Z.
Proof.
  assert (Hmax : maxLength data <= maxLength (data ++ more)).
  { unfold maxLength.
    destruct (maxLength_loop_app data more 0 (Num 0) (Num 0)) as (c' & l' & ->).
    apply maxLength_loop_ge. }
  split; [exact Hmax|].
  unfold domain. apply Z.mul_le_mono_nonneg_r; [lia|].
  apply Qceiling_resp_le. unfold Qdiv. apply Qmult_le_compat_r; [exact Hmax|].
  discriminate.
Qed.
